(** * Landmark-driven overlay pipeline of the jewelry AR mirror

    A shallow embedding of the browser front end:
    - [services/websocket.js]: the reconnecting [LandmarkWebSocket] client;
    - [App.jsx]: the listeners that store the latest frame;
    - [components/AROverlay.jsx] and its model-loading variant: the effect that
      turns landmarks into poses, and what the canvas renders.

    JavaScript numbers are modelled by exact rationals ([Q]) for coordinates
    and angles, and by [Z] for the integer-valued reconnect counters; the
    module [Doubles] has the landmark effect once more with the numbers as
    the code has them, IEEE doubles, for statements about computed values.
    React state is threaded explicitly: every [setX] of the source is a
    record update here.  [Page] lets React commit after every emission;
    [Batched] lets it commit whenever it likes. *)

From stdpp Require Import base list strings gmap.
From Stdlib Require Import ZArith QArith Lia Lqa PrimFloat.

Close Scope Q_scope.
#[local] Set Warnings "-inexact-float".

(** ** JavaScript truthiness and the [||] defaults used by the source *)
Module JS.

(** A number is falsy exactly when it is zero. *)
Definition truthy_num (q : Q) : bool := negb (Qeq_bool q 0%Q).

(** A string is falsy exactly when it is empty. *)
Definition truthy_str (s : string) : bool := negb (String.eqb s "").

(** [null]/[undefined] are falsy; a present value is judged by [t]. *)
Definition truthy_opt {A} (t : A -> bool) (o : option A) : bool :=
  match o with Some a => t a | None => false end.

(** [v || d]. *)
Definition or_default {A} (t : A -> bool) (o : option A) (d : A) : A :=
  match o with
  | Some a => if t a then a else d
  | None => d
  end.

(** [Math.PI]: the double nearest to pi, which is this rational. *)
Definition Math_PI : Q := 884279719003555 # 281474976710656.

End JS.

(** ** Data model *)
Module Data.

Definition Vec3 : Type := Q * Q * Q.

Record LandmarkPoint := { x : Q; y : Q; z : Q }.

Record FaceRotation := { pitch : Q; yaw : Q; roll : Q }.

Record Landmarks := {
  left_ear : option LandmarkPoint;
  right_ear : option LandmarkPoint;
  face_rotation : option FaceRotation
}.

(** A parsed message.  Every top-level field may be missing. *)
Record LandmarkFrame := {
  timestamp : option Q;
  landmarks : option Landmarks;
  fps : option Q;
  face_detected : option bool;
  error : option string
}.

(** What [VideoFeed] reports through [onVideoReady]. *)
Record VideoSize := { width : Q; height : Q }.

(** An entry of the [jewelry] table of [JewelrySelector]. *)
Record Jewelry := {
  id : Z;
  name : string;
  type : string;
  color : string;
  modelPath : option string;
  scale : Q
}.

(** Componentwise equality of rationals up to [Qeq]. *)
Definition vec3_eq (u v : Vec3) : Prop :=
  let '(u0, u1, u2) := u in
  let '(v0, v1, v2) := v in
  (u0 == v0)%Q /\ (u1 == v1)%Q /\ (u2 == v2)%Q.

End Data.

(** ** The scene graph handed to the canvas *)
Module Scene.
Import Data.

Inductive Geometry :=
| torusGeometry (radius tube : Q) (radialSegments tubularSegments : Z)
| sphereGeometry (radius : Q) (widthSegments heightSegments : Z).

Inductive Material :=
| meshStandardMaterial (color : string)
| meshBasicMaterial (color : string) (wireframe : bool).

Record Mesh := {
  mesh_position : Vec3;
  geometry : Geometry;
  material : Material
}.

Inductive Element :=
| group (position rotation : Vec3) (children : list Mesh)
| mesh (m : Mesh)
| primitive (modelPath : string) (position rotation : Vec3) (scale : Q)
| Suspense (fallback child : Element).

End Scene.

(** ** [AROverlay]: the landmark effect and the rendered earrings *)
Module AROverlay.
Import Data Scene.
Local Open Scope Q_scope.

(** The [useState] cells of the component. *)
Record State := {
  leftEarPos : Vec3;
  rightEarPos : Vec3;
  faceRotation : Vec3;
  isVisible : bool;
  modelError : bool
}.

Definition initial : State :=
  {| leftEarPos := (0, 0, -5);
     rightEarPos := (0, 0, -5);
     faceRotation := (0, 0, 0);
     isVisible := false;
     modelError := false |}.

Definition setLeftEarPos (v : Vec3) (s : State) : State :=
  {| leftEarPos := v; rightEarPos := rightEarPos s;
     faceRotation := faceRotation s; isVisible := isVisible s;
     modelError := modelError s |}.

Definition setRightEarPos (v : Vec3) (s : State) : State :=
  {| leftEarPos := leftEarPos s; rightEarPos := v;
     faceRotation := faceRotation s; isVisible := isVisible s;
     modelError := modelError s |}.

Definition setFaceRotation (v : Vec3) (s : State) : State :=
  {| leftEarPos := leftEarPos s; rightEarPos := rightEarPos s;
     faceRotation := v; isVisible := isVisible s;
     modelError := modelError s |}.

Definition setIsVisible (b : bool) (s : State) : State :=
  {| leftEarPos := leftEarPos s; rightEarPos := rightEarPos s;
     faceRotation := faceRotation s; isVisible := b;
     modelError := modelError s |}.

Definition setModelError (b : bool) (s : State) : State :=
  {| leftEarPos := leftEarPos s; rightEarPos := rightEarPos s;
     faceRotation := faceRotation s; isVisible := isVisible s;
     modelError := b |}.

(** [videoSize ? videoSize.width / videoSize.height : 16 / 9].
    Division by a zero height yields 0 here and a non-finite number in
    JavaScript; no statement below uses a zero height. *)
Definition aspect_of (videoSize : option VideoSize) : Q :=
  match videoSize with
  | Some v => width v / height v
  | None => 16 / 9
  end.

(** The three coordinates computed for one ear, in exact arithmetic: what
    the doubles of the code approximate ([Doubles.toRenderSpace] rounds). *)
Definition toRenderSpace (point : LandmarkPoint) (aspect : Q) : Vec3 :=
  (- (x point * 2 - 1) * aspect, - (y point * 2 - 1), z point * 2).

(** The body of [useEffect(..., [landmarks, videoSize])]. *)
Definition landmark_effect
    (landmarks : option Landmarks) (videoSize : option VideoSize)
    (s : State) : State :=
  match landmarks with
  | None => setIsVisible false s
  | Some lm =>
    match left_ear lm, right_ear lm with
    | Some leftEar, Some rightEar =>
      let s := setIsVisible true s in
      let aspect := aspect_of videoSize in
      let s := setLeftEarPos (toRenderSpace leftEar aspect) s in
      let s := setRightEarPos (toRenderSpace rightEar aspect) s in
      match face_rotation lm with
      | Some r => setFaceRotation (pitch r, yaw r, roll r) s
      | None => s
      end
    | _, _ => setIsVisible false s
    end
  end.

(** Rotation props of the two earrings. *)
Definition left_rotation (s : State) : Vec3 :=
  let '(r0, r1, r2) := faceRotation s in
  (r0 * 0.5, r1 * 0.5, r2).

Definition right_rotation (s : State) : Vec3 :=
  let '(r0, r1, r2) := faceRotation s in
  (r0 * 0.5, JS.Math_PI + r1 * 0.5, - r2).

(** [SimpleEarring] of [components/AROverlay.jsx]. *)
Definition SimpleEarring (position rotation : Vec3) (scale : Q) : Element :=
  group position rotation
    [ {| mesh_position := (0, 0, 0);
         geometry := torusGeometry (0.015 * scale) (0.003 * scale) 16 32;
         material := meshStandardMaterial "#FFD700" |};
      {| mesh_position := (0, -0.02 * scale, 0);
         geometry := sphereGeometry (0.005 * scale) 16 16;
         material := meshStandardMaterial "#FF6B9D" |} ].

(** What [components/AROverlay.jsx] puts inside the canvas besides lights. *)
Definition render_simple (s : State) : list Element :=
  if isVisible s then
    [ SimpleEarring (leftEarPos s) (left_rotation s) 1.5;
      SimpleEarring (rightEarPos s) (right_rotation s) 1.5 ]
  else [].

(** [ProceduralEarring] of the model-loading variant. *)
Definition ProceduralEarring
    (position rotation : Vec3) (scale : Q) (color : string) : Element :=
  group position rotation
    [ {| mesh_position := (0, 0, 0);
         geometry := torusGeometry (0.015 * scale) (0.003 * scale) 16 32;
         material := meshStandardMaterial color |};
      {| mesh_position := (0, -0.02 * scale, 0);
         geometry := sphereGeometry (0.005 * scale) 16 16;
         material := meshStandardMaterial "#FF6B9D" |} ].

Definition LoadingEarring (position : Vec3) : Element :=
  mesh {| mesh_position := position;
          geometry := sphereGeometry 0.01 8 8;
          material := meshBasicMaterial "#888888" true |}.

(** [ModelEarring]: the scene loaded by [useGLTF(modelPath)]. *)
Definition ModelEarring
    (modelPath : string) (position rotation : Vec3) (scale : Q) : Element :=
  primitive modelPath position rotation scale.

(** [Earring]: [if (useFallback || !modelPath)] picks the procedural hoop. *)
Definition Earring
    (modelPath : option string) (position rotation : Vec3) (scale : Q)
    (color : string) (useFallback : bool) : Element :=
  match modelPath with
  | Some p =>
    if useFallback || negb (JS.truthy_str p) then
      ProceduralEarring position rotation scale color
    else
      Suspense (LoadingEarring position)
               (ModelEarring p position rotation scale)
  | None => ProceduralEarring position rotation scale color
  end.

(** [selectedJewelry?.modelPath], [selectedJewelry?.scale || 1.5],
    [selectedJewelry?.color || '#FFD700']. *)
Definition modelPath_of (selectedJewelry : option Jewelry) : option string :=
  match selectedJewelry with Some j => modelPath j | None => None end.

Definition jewelryScale (selectedJewelry : option Jewelry) : Q :=
  JS.or_default JS.truthy_num (option_map scale selectedJewelry) 1.5.

Definition jewelryColor (selectedJewelry : option Jewelry) : string :=
  JS.or_default JS.truthy_str (option_map color selectedJewelry) "#FFD700".

Definition useFallback_of (selectedJewelry : option Jewelry) (s : State) : bool :=
  negb (JS.truthy_opt JS.truthy_str (modelPath_of selectedJewelry))
  || modelError s.

(** What the model-loading variant puts inside the canvas. *)
Definition render (selectedJewelry : option Jewelry) (s : State) : list Element :=
  let modelPath := modelPath_of selectedJewelry in
  let jewelryScale := jewelryScale selectedJewelry in
  let jewelryColor := jewelryColor selectedJewelry in
  let useFallback := useFallback_of selectedJewelry s in
  if isVisible s then
    [ Earring modelPath (leftEarPos s) (left_rotation s)
              jewelryScale jewelryColor useFallback;
      Earring modelPath (rightEarPos s) (right_rotation s)
              jewelryScale jewelryColor useFallback ]
  else [].

(** The canvas [onError] handler. *)
Definition onError (s : State) : State := setModelError true s.

(** A mounted overlay: its props and its state. *)
Record Mounted := {
  props_landmarks : option Landmarks;
  props_videoSize : option VideoSize;
  props_selectedJewelry : option Jewelry;
  state : State
}.

(** [Object.is] on an effect dependency.  A non-null prop handed down after
    a [setLandmarks]/[setVideoSize] is a freshly built object, never the
    previous one; [null] is identical to [null]. *)
Definition same_ref {A} (old new : option A) : bool :=
  match old, new with
  | None, None => true
  | _, _ => false
  end.

(** First render: the effect runs once on the initial state. *)
Definition mount
    (landmarks : option Landmarks) (videoSize : option VideoSize)
    (selectedJewelry : option Jewelry) : Mounted :=
  {| props_landmarks := landmarks;
     props_videoSize := videoSize;
     props_selectedJewelry := selectedJewelry;
     state := landmark_effect landmarks videoSize initial |}.

(** What can happen to a mounted overlay between two renders. *)
Inductive Event :=
| NewLandmarks (l : option Landmarks)
| NewVideoSize (v : option VideoSize)
| NewSelection (j : option Jewelry)
| CanvasError.

Definition handle (m : Mounted) (e : Event) : Mounted :=
  match e with
  | NewLandmarks l =>
    {| props_landmarks := l; props_videoSize := props_videoSize m;
       props_selectedJewelry := props_selectedJewelry m;
       state := if same_ref (props_landmarks m) l then state m
                else landmark_effect l (props_videoSize m) (state m) |}
  | NewVideoSize v =>
    {| props_landmarks := props_landmarks m; props_videoSize := v;
       props_selectedJewelry := props_selectedJewelry m;
       state := if same_ref (props_videoSize m) v then state m
                else landmark_effect (props_landmarks m) v (state m) |}
  | NewSelection j =>
    {| props_landmarks := props_landmarks m;
       props_videoSize := props_videoSize m;
       props_selectedJewelry := j;
       state := state m |}
  | CanvasError =>
    {| props_landmarks := props_landmarks m;
       props_videoSize := props_videoSize m;
       props_selectedJewelry := props_selectedJewelry m;
       state := onError (state m) |}
  end.

Definition handle_all (m : Mounted) (es : list Event) : Mounted :=
  fold_left handle es m.

Definition render_mounted (m : Mounted) : list Element :=
  render (props_selectedJewelry m) (state m).

(** An element that requests a model file somewhere inside it. *)
Fixpoint loads_asset (e : Element) : bool :=
  match e with
  | primitive _ _ _ _ => true
  | Suspense f c => loads_asset f || loads_asset c
  | group _ _ _ | mesh _ => false
  end.

End AROverlay.

(** ** [App]: the state fed by the client's listeners *)
Module App.
Import Data.

Record State := {
  landmarks : option Data.Landmarks;
  fps : Q;
  isConnected : bool;
  videoSize : option VideoSize;
  selectedJewelry : option Jewelry;
  faceDetected : bool;
  backendError : option string
}.

Definition initial : State :=
  {| landmarks := None; fps := 0; isConnected := false; videoSize := None;
     selectedJewelry := None; faceDetected := false; backendError := None |}.

Definition setLandmarks (l : option Data.Landmarks) (s : State) : State :=
  {| landmarks := l; fps := fps s; isConnected := isConnected s;
     videoSize := videoSize s; selectedJewelry := selectedJewelry s;
     faceDetected := faceDetected s; backendError := backendError s |}.

Definition setFps (q : Q) (s : State) : State :=
  {| landmarks := landmarks s; fps := q; isConnected := isConnected s;
     videoSize := videoSize s; selectedJewelry := selectedJewelry s;
     faceDetected := faceDetected s; backendError := backendError s |}.

Definition setIsConnected (b : bool) (s : State) : State :=
  {| landmarks := landmarks s; fps := fps s; isConnected := b;
     videoSize := videoSize s; selectedJewelry := selectedJewelry s;
     faceDetected := faceDetected s; backendError := backendError s |}.

Definition setVideoSize (v : option VideoSize) (s : State) : State :=
  {| landmarks := landmarks s; fps := fps s; isConnected := isConnected s;
     videoSize := v; selectedJewelry := selectedJewelry s;
     faceDetected := faceDetected s; backendError := backendError s |}.

Definition setSelectedJewelry (j : option Jewelry) (s : State) : State :=
  {| landmarks := landmarks s; fps := fps s; isConnected := isConnected s;
     videoSize := videoSize s; selectedJewelry := j;
     faceDetected := faceDetected s; backendError := backendError s |}.

Definition setFaceDetected (b : bool) (s : State) : State :=
  {| landmarks := landmarks s; fps := fps s; isConnected := isConnected s;
     videoSize := videoSize s; selectedJewelry := selectedJewelry s;
     faceDetected := b; backendError := backendError s |}.

Definition setBackendError (e : option string) (s : State) : State :=
  {| landmarks := landmarks s; fps := fps s; isConnected := isConnected s;
     videoSize := videoSize s; selectedJewelry := selectedJewelry s;
     faceDetected := faceDetected s; backendError := e |}.

(** [if (data.error)]. *)
Definition has_error (data : LandmarkFrame) : bool :=
  JS.truthy_opt JS.truthy_str (Data.error data).

(** [ws.on('connected', ...)]. *)
Definition on_connected (status : bool) (s : State) : State :=
  let s := setIsConnected status s in
  if status then setBackendError None s else s.

(** [ws.on('landmarks', ...)]; the [console.error] is not part of the state.
    [data.landmarks || null] is the field itself: an object is truthy, and a
    missing or null field is [None] either way. *)
Definition on_landmarks (data : LandmarkFrame) (s : State) : State :=
  if has_error data then
    setBackendError (Data.error data) s
  else
    let s := setLandmarks (Data.landmarks data) s in
    let s := setFps (JS.or_default JS.truthy_num (Data.fps data) 0%Q) s in
    let s := setFaceDetected
               (JS.or_default (fun b => b) (Data.face_detected data) false) s in
    setBackendError None s.

(** [ws.on('error', ...)] only logs. *)
Definition on_error (s : State) : State := s.

(** [ws.on('maxReconnectAttemptsReached', ...)]. *)
Definition on_maxReconnectAttemptsReached (s : State) : State :=
  setBackendError
    (Some "Cannot connect to backend server. Please ensure the backend is running on http://localhost:8000")
    s.

Definition handleVideoReady (size : VideoSize) (s : State) : State :=
  setVideoSize (Some size) s.

Definition handleJewelrySelect (jewelry : Jewelry) (s : State) : State :=
  setSelectedJewelry (Some jewelry) s.

End App.

(** ** [LandmarkWebSocket]: the reconnecting client and its event loop *)
Module LandmarkWebSocket.

(** What the browser contributes: [JSON.parse] ([None] when it throws) and
    whether [new WebSocket(url)] accepts the URL (it throws otherwise). *)
Class Runtime := {
  JSON_parse : string -> option Data.LandmarkFrame;
  WebSocket_accepts : string -> bool
}.

Inductive ReadyState := CONNECTING | OPEN | CLOSING | CLOSED.

(** The four event kinds passed to [emit], with their payloads. *)
Inductive Emitted :=
| connected (status : bool)
| landmarks (data : Data.LandmarkFrame)
| error
| maxReconnectAttemptsReached (flag : bool).

(** Everything a handler does to the outside world, in order.  [emit]
    calls the listeners registered for that event; the listeners are the
    observer's side (see [App]), so an emission is recorded as such. *)
Inductive Effect :=
| console_log (msg : string)
| console_log_reconnect (attempt max : Z)
| console_error (msg : string)
| emit (e : Emitted)
| setTimeout_connect (delay : Z)
| new_WebSocket (url : string) (socket : nat)
| ws_close (socket : nat).

(** The fields of the class; [ws] names a socket of the table below. *)
Record Client := {
  url : string;
  ws : option nat;
  reconnectAttempts : Z;
  maxReconnectAttempts : Z;
  reconnectDelay : Z
}.

Definition constructor (url : string) : Client :=
  {| url := url; ws := None; reconnectAttempts := 0;
     maxReconnectAttempts := 5; reconnectDelay := 1000 |}.

(** The client together with the browser state it lives in: every socket
    ever created with its ready state, the pending reconnect timers (each
    holds [() => this.connect()]), and the effects so far. *)
Record World := {
  client : Client;
  sockets : list ReadyState;
  timers : list Z;
  trace : list Effect
}.

Definition boot (url : string) : World :=
  {| client := constructor url; sockets := []; timers := []; trace := [] |}.

(** *** A state monad over the world *)
Definition M (A : Type) : Type := World -> A * World.

Definition ret {A} (a : A) : M A := fun w => (a, w).

Definition bind {A B} (m : M A) (k : A -> M B) : M B :=
  fun w => let '(a, w') := m w in k a w'.

Notation "x <- m ;; k" := (bind m (fun x => k))
  (at level 100, m at next level, right associativity).
Notation "m ;;; k" := (bind m (fun _ => k))
  (at level 100, right associativity).

Definition exec (m : M unit) (w : World) : World := snd (m w).

Definition this : M Client := fun w => (client w, w).

Definition update (f : Client -> Client) : M unit :=
  fun w => (tt, {| client := f (client w); sockets := sockets w;
                   timers := timers w; trace := trace w |}).

Definition tell (e : Effect) : M unit :=
  fun w => (tt, {| client := client w; sockets := sockets w;
                   timers := timers w; trace := trace w ++ [e] |}).

Definition set_ws (v : option nat) (c : Client) : Client :=
  {| url := url c; ws := v; reconnectAttempts := reconnectAttempts c;
     maxReconnectAttempts := maxReconnectAttempts c;
     reconnectDelay := reconnectDelay c |}.

Definition set_reconnectAttempts (v : Z) (c : Client) : Client :=
  {| url := url c; ws := ws c; reconnectAttempts := v;
     maxReconnectAttempts := maxReconnectAttempts c;
     reconnectDelay := reconnectDelay c |}.

Definition set_reconnectDelay (v : Z) (c : Client) : Client :=
  {| url := url c; ws := ws c; reconnectAttempts := reconnectAttempts c;
     maxReconnectAttempts := maxReconnectAttempts c;
     reconnectDelay := v |}.

(** [new WebSocket(url)]: a fresh socket in state CONNECTING. *)
Definition open_socket (u : string) : M nat :=
  fun w =>
    let i := length (sockets w) in
    (i, {| client := client w; sockets := sockets w ++ [CONNECTING];
           timers := timers w; trace := trace w ++ [new_WebSocket u i] |}).

(** [setTimeout(() => this.connect(), delay)]. *)
Definition setTimeout (delay : Z) : M unit :=
  fun w =>
    (tt, {| client := client w; sockets := sockets w;
            timers := timers w ++ [delay];
            trace := trace w ++ [setTimeout_connect delay] |}).

(** [socket.close()]: starts the closing handshake of a socket that is not
    already closing or closed; the close event arrives later. *)
Definition closing (st : ReadyState) : ReadyState :=
  match st with
  | CONNECTING | OPEN => CLOSING
  | CLOSING => CLOSING
  | CLOSED => CLOSED
  end.

Definition close_socket (i : nat) : M unit :=
  fun w =>
    (tt, {| client := client w;
            sockets := match sockets w !! i with
                       | Some st => <[i := closing st]> (sockets w)
                       | None => sockets w
                       end;
            timers := timers w; trace := trace w ++ [ws_close i] |}).

Section Handlers.
Context {rt : Runtime}.

(** [connect()].  The four handlers it installs on the socket are the
    definitions that follow; they are the same for every socket. *)
Definition connect : M unit :=
  c <- this ;;
  if WebSocket_accepts (url c) then
    i <- open_socket (url c) ;;
    update (set_ws (Some i))
  else
    tell (console_error "Error creating WebSocket connection:") ;;;
    tell (emit error).

Definition onopen : M unit :=
  tell (console_log "WebSocket connected") ;;;
  update (set_reconnectAttempts 0) ;;;
  update (set_reconnectDelay 1000) ;;;
  tell (emit (connected true)).

Definition onmessage (data : string) : M unit :=
  match JSON_parse data with
  | Some frame => tell (emit (landmarks frame))
  | None => tell (console_error "Error parsing WebSocket message:")
  end.

Definition onerror : M unit :=
  tell (console_error "WebSocket error:") ;;;
  tell (emit error).

Definition onclose : M unit :=
  tell (console_log "WebSocket disconnected") ;;;
  tell (emit (connected false)) ;;;
  c <- this ;;
  if (reconnectAttempts c <? maxReconnectAttempts c)%Z then
    update (set_reconnectAttempts (reconnectAttempts c + 1)) ;;;
    c <- this ;;
    tell (console_log_reconnect (reconnectAttempts c)
                                (maxReconnectAttempts c)) ;;;
    setTimeout (reconnectDelay c) ;;;
    update (set_reconnectDelay (Z.min (reconnectDelay c * 2) 30000))
  else
    tell (console_error "Max reconnection attempts reached") ;;;
    tell (emit (maxReconnectAttemptsReached true)).

Definition disconnect : M unit :=
  c <- this ;;
  match ws c with
  | Some i =>
    update (set_reconnectAttempts (maxReconnectAttempts c)) ;;;
    close_socket i ;;;
    update (set_ws None)
  | None => ret tt
  end.

Definition isConnected (w : World) : bool :=
  match ws (client w) with
  | Some i => match sockets w !! i with
              | Some OPEN => true
              | _ => false
              end
  | None => false
  end.

(** *** The event loop *)

(** What can run next: a call of the public API, a socket event, or the
    [k]-th pending reconnect timer. *)
Inductive Event :=
| call_connect
| call_disconnect
| sock_open (i : nat)
| sock_message (i : nat) (data : string)
| sock_error (i : nat)
| sock_close (i : nat)
| timer_fire (k : nat).

Definition set_socket (i : nat) (st : ReadyState) (w : World) : World :=
  {| client := client w; sockets := <[i := st]> (sockets w);
     timers := timers w; trace := trace w |}.

Definition drop_timer (k : nat) (w : World) : World :=
  {| client := client w; sockets := sockets w;
     timers := take k (timers w) ++ drop (S k) (timers w);
     trace := trace w |}.

(** One turn of the event loop; [None] when the browser cannot deliver
    that event in that state (a socket opens once, receives messages only
    while open, and fires events only until it is closed). *)
Definition step (w : World) (e : Event) : option World :=
  match e with
  | call_connect => Some (exec connect w)
  | call_disconnect => Some (exec disconnect w)
  | sock_open i =>
    match sockets w !! i with
    | Some CONNECTING => Some (exec onopen (set_socket i OPEN w))
    | _ => None
    end
  | sock_message i data =>
    match sockets w !! i with
    | Some OPEN => Some (exec (onmessage data) w)
    | _ => None
    end
  | sock_error i =>
    match sockets w !! i with
    | Some CLOSED | None => None
    | Some _ => Some (exec onerror w)
    end
  | sock_close i =>
    match sockets w !! i with
    | Some CLOSED | None => None
    | Some _ => Some (exec onclose (set_socket i CLOSED w))
    end
  | timer_fire k =>
    match timers w !! k with
    | Some _ => Some (exec connect (drop_timer k w))
    | None => None
    end
  end.

Fixpoint run (w : World) (es : list Event) : option World :=
  match es with
  | [] => Some w
  | e :: es =>
    match step w e with
    | Some w' => run w' es
    | None => None
    end
  end.

End Handlers.

(** *** Observations on traces and schedules *)

Fixpoint count (p : Effect -> bool) (t : list Effect) : nat :=
  match t with
  | [] => 0
  | e :: t => (if p e then 1 else 0) + count p t
  end.

(** The delays of the reconnects scheduled so far, oldest first. *)
Fixpoint reconnect_delays (t : list Effect) : list Z :=
  match t with
  | [] => []
  | setTimeout_connect d :: t => d :: reconnect_delays t
  | _ :: t => reconnect_delays t
  end.

Definition is_max_reached (e : Effect) : bool :=
  match e with emit (maxReconnectAttemptsReached _) => true | _ => false end.

Definition is_emit (e : Effect) : bool :=
  match e with emit _ => true | _ => false end.

Definition is_close (e : Event) : bool :=
  match e with sock_close _ => true | _ => false end.

(** Events that leave the retry loop to itself: no successful open and no
    call of the public API. *)
Definition unattended (e : Event) : bool :=
  match e with
  | sock_open _ | call_connect | call_disconnect => false
  | _ => true
  end.

Definition not_connect (e : Event) : bool :=
  match e with call_connect => false | _ => true end.

Definition closes (es : list Event) : nat :=
  length (List.filter is_close es).

Definition is_live (st : ReadyState) : bool :=
  match st with CLOSED => false | _ => true end.

Definition live_sockets (w : World) : nat :=
  length (List.filter is_live (sockets w)).

(** Attempts in flight: sockets not yet closed plus pending timers. *)
Definition in_flight (w : World) : nat :=
  live_sockets w + length (timers w).

(** Nothing is in flight. *)
Definition idle (w : World) : Prop :=
  live_sockets w = 0 /\ timers w = [].

(** The delay in force after [k] reconnects were scheduled since the last
    successful open. *)
Definition backoff (k : nat) : Z := Z.min (1000 * 2 ^ Z.of_nat k) 30000.

End LandmarkWebSocket.

(** ** The page: [App] with its [AROverlay] child *)
Module Page.

Record State := {
  app : App.State;
  overlay : AROverlay.Mounted
}.

(** [App] renders [<AROverlay landmarks={landmarks} videoSize={videoSize} />]. *)
Definition initial : State :=
  {| app := App.initial; overlay := AROverlay.mount None None None |}.

(** A listener of [App] runs for an emitted event, then the overlay sees
    the new props.  A frame with an error does not call [setLandmarks], so
    the overlay keeps the very same [landmarks] object and its effect does
    not run.  This is the schedule in which React commits after every
    emission; [Batched] has the schedules in which several frames are
    stored before one commit. *)
Definition deliver (p : State) (e : LandmarkWebSocket.Emitted) : State :=
  match e with
  | LandmarkWebSocket.connected status =>
    {| app := App.on_connected status (app p); overlay := overlay p |}
  | LandmarkWebSocket.landmarks data =>
    let a := App.on_landmarks data (app p) in
    {| app := a;
       overlay := if App.has_error data then overlay p
                  else AROverlay.handle (overlay p)
                         (AROverlay.NewLandmarks (App.landmarks a)) |}
  | LandmarkWebSocket.error =>
    {| app := App.on_error (app p); overlay := overlay p |}
  | LandmarkWebSocket.maxReconnectAttemptsReached _ =>
    {| app := App.on_maxReconnectAttemptsReached (app p);
       overlay := overlay p |}
  end.

Definition receive (p : State) (data : Data.LandmarkFrame) : State :=
  deliver p (LandmarkWebSocket.landmarks data).

Definition receive_all (p : State) (frames : list Data.LandmarkFrame) : State :=
  fold_left receive frames p.

(** [onVideoReady] of [VideoFeed]. *)
Definition videoReady (p : State) (size : Data.VideoSize) : State :=
  let a := App.handleVideoReady size (app p) in
  {| app := a;
     overlay := AROverlay.handle (overlay p)
                  (AROverlay.NewVideoSize (App.videoSize a)) |}.

Abbreviation overlay_state p := (AROverlay.state (overlay p)).

(** The visibility state of the overlay. *)
Definition visible (p : State) : bool :=
  AROverlay.isVisible (overlay_state p).

(** A frame that "has both ears": non-null landmarks with non-null
    [left_ear] and [right_ear]. *)
Definition both_ears (data : Data.LandmarkFrame) : bool :=
  match Data.landmarks data with
  | Some lm =>
    match Data.left_ear lm, Data.right_ear lm with
    | Some _, Some _ => true
    | _, _ => false
    end
  | None => false
  end.

(** [face_detected] is (present and) true. *)
Definition face_detected_true (data : Data.LandmarkFrame) : bool :=
  match Data.face_detected data with
  | Some b => b
  | None => false
  end.

(** The overlay was rendered with the stored landmarks, and is hidden when
    none are stored. *)
Definition in_sync (p : State) : Prop :=
  AROverlay.props_landmarks (overlay p) = App.landmarks (app p) /\
  (App.landmarks (app p) = None -> visible p = false).

(** Everything the page reacts to. *)
Inductive Input :=
| from_client (e : LandmarkWebSocket.Emitted)
| video_ready (size : Data.VideoSize).

Definition react (p : State) (i : Input) : State :=
  match i with
  | from_client e => deliver p e
  | video_ready size => videoReady p size
  end.

Definition react_all (p : State) (inputs : list Input) : State :=
  fold_left react inputs p.

(** An error-free frame [data] carrying landmarks [lm] with ears [l], [r]. *)
Definition tracked
    (data : Data.LandmarkFrame) (lm : Data.Landmarks)
    (l r : Data.LandmarkPoint) : Prop :=
  App.has_error data = false /\
  Data.landmarks data = Some lm /\
  Data.left_ear lm = Some l /\
  Data.right_ear lm = Some r.

End Page.

(** ** Concrete inputs used in the examples below *)
Module Examples.
Import Data.

Definition ear_03 : LandmarkPoint := {| x := 0.3; y := 0.4; z := 0.1 |}.
Definition ear_07 : LandmarkPoint := {| x := 0.7; y := 0.4; z := 0.1 |}.
Definition ear_05 : LandmarkPoint := {| x := 0.5; y := 0.5; z := 0 |}.

Definition turned : FaceRotation := {| pitch := 0.2; yaw := -0.4; roll := 0.1 |}.
Definition tilted : FaceRotation := {| pitch := 0; yaw := 0.6; roll := -0.3 |}.

Definition ears_only : Landmarks :=
  {| left_ear := Some ear_03; right_ear := Some ear_07; face_rotation := None |}.

Definition ears_turned : Landmarks :=
  {| left_ear := Some ear_05; right_ear := Some ear_07;
     face_rotation := Some turned |}.

Definition ears_tilted : Landmarks :=
  {| left_ear := Some ear_03; right_ear := Some ear_05;
     face_rotation := Some tilted |}.

Definition frame_of (lm : option Landmarks) (detected : bool) : LandmarkFrame :=
  {| timestamp := Some 1%Q; landmarks := lm; fps := Some 30%Q;
     face_detected := Some detected; error := None |}.

(** The scenario frame of the specification. *)
Definition scenario_frame : LandmarkFrame := frame_of (Some ears_only) true.

(** Both ears tracked, yet the producer says no face was detected. *)
Definition undetected_frame : LandmarkFrame := frame_of (Some ears_only) false.

(** Frames that carry a rotation. *)
Definition turned_frame : LandmarkFrame := frame_of (Some ears_turned) true.
Definition tilted_frame : LandmarkFrame := frame_of (Some ears_tilted) true.

Definition failing_frame : LandmarkFrame :=
  {| timestamp := Some 2%Q; landmarks := None; fps := Some 0%Q;
     face_detected := Some false; error := Some "camera unavailable" |}.

Definition square_video : VideoSize := {| width := 480; height := 480 |}.

Definition gold_hoops : Jewelry :=
  {| id := 1; name := "Gold Hoops"; type := "earrings"; color := "#FFD700";
     modelPath := Some "/models/gold-hoop-earring.glb"; scale := 1.5 |}.

Definition plain_studs : Jewelry :=
  {| id := 2; name := "Silver Studs"; type := "earrings"; color := "#C0C0C0";
     modelPath := None; scale := 1.2 |}.

(** A page that has already shown one tracked frame. *)
Definition tracking_page : Page.State :=
  Page.receive (Page.videoReady Page.initial square_video) scenario_frame.

(** A browser that parses only the empty object and accepts only
    [ws://] and [wss://] URLs. *)
Definition sample_runtime : LandmarkWebSocket.Runtime :=
  {| LandmarkWebSocket.JSON_parse := fun data =>
       if String.eqb data "{}" then
         Some {| timestamp := None; landmarks := None; fps := None;
                 face_detected := None; error := None |}
       else None;
     LandmarkWebSocket.WebSocket_accepts := fun url =>
       String.prefix "ws://" url || String.prefix "wss://" url |}.

Definition endpoint : string := "ws://localhost:8000/ws/landmarks".

(** The client of [App] right after its first [connect()]. *)
Definition started : LandmarkWebSocket.World :=
  LandmarkWebSocket.exec
    (LandmarkWebSocket.connect (rt := sample_runtime))
    (LandmarkWebSocket.boot endpoint).

(** The same client once its first socket has opened. *)
Definition connected_world : LandmarkWebSocket.World :=
  LandmarkWebSocket.exec
    LandmarkWebSocket.onopen
    (LandmarkWebSocket.set_socket 0 LandmarkWebSocket.OPEN started).

(** Socket [n] fails to connect and the timer set for it fires. *)
Definition fail_and_retry (n : nat) : list LandmarkWebSocket.Event :=
  [LandmarkWebSocket.sock_close n; LandmarkWebSocket.timer_fire 0].

(** Five failed connections in a row, each followed by its reconnect
    except the last, whose timer is still pending. *)
Definition five_failures : list LandmarkWebSocket.Event :=
  fail_and_retry 0 ++ fail_and_retry 1 ++ fail_and_retry 2 ++
  fail_and_retry 3 ++ [LandmarkWebSocket.sock_close 4].

(** The fifth reconnect fails as well. *)
Definition six_failures : list LandmarkWebSocket.Event :=
  five_failures ++ [LandmarkWebSocket.timer_fire 0; LandmarkWebSocket.sock_close 5].

(** An overlay of the model-loading variant with a selection. *)
Definition showing (j : Jewelry) : AROverlay.Mounted :=
  AROverlay.mount (Some ears_turned) (Some square_video) (Some j).

End Examples.

(** ** The listener registry of [LandmarkWebSocket]: [on], [off], [emit] *)
Module Listeners.

(** A callback is known by its reference (a number here).  What it does when
    called is the observer's business, except that it may throw. *)
Inductive Outcome :=
| called (callback : nat)
| listener_error (event : string).

(** What [this.listeners[event]] evaluates to.  The registry is the object
    literal [{}]: besides the arrays stored by [on] it answers for the names
    it inherits from [Object.prototype], with a value that is truthy and
    has no [push], [filter] or [forEach]. *)
Inductive Slot :=
| array (cbs : list nat)
| inherited_value
| undefined.

(** A history of registrations and removals. *)
Inductive Call :=
| call_on (event : string) (callback : nat)
| call_off (event : string) (callback : nat).

Section Registry.

(** The names an empty object literal inherits in the engine at hand
    ([toString], [constructor], ...). *)
Variable inherited : string -> bool.

(** Own properties come first, then the prototype. *)
Definition slot (listeners : gmap string (list nat)) (event : string) : Slot :=
  match listeners !! event with
  | Some cbs => array cbs
  | None => if inherited event then inherited_value else undefined
  end.

(** [on(event, callback)]: the array is created on first use, then pushed.
    [None] is a [TypeError], thrown before anything is changed. *)
Definition on (event : string) (callback : nat)
    (listeners : gmap string (list nat)) : option (gmap string (list nat)) :=
  match slot listeners event with
  | undefined => Some (<[event := [callback]]> listeners)
  | array cbs => Some (<[event := cbs ++ [callback]]> listeners)
  | inherited_value => None
  end.

(** [off(event, callback)]: [filter((cb) => cb !== callback)]. *)
Definition off (event : string) (callback : nat)
    (listeners : gmap string (list nat)) : option (gmap string (list nat)) :=
  match slot listeners event with
  | array cbs =>
    Some (<[event := List.filter (fun cb => negb (Nat.eqb cb callback)) cbs]>
            listeners)
  | undefined => Some listeners
  | inherited_value => None
  end.

(** [emit(event, data)]: every callback of the event, in order, each inside
    its own [try]/[catch]; [throws cb] tells whether [cb] throws on [data]. *)
Definition emit (throws : nat -> bool)
    (listeners : gmap string (list nat)) (event : string)
    : option (list Outcome) :=
  match slot listeners event with
  | array cbs =>
    Some (flat_map (fun cb => if throws cb then [called cb; listener_error event]
                              else [called cb]) cbs)
  | undefined => Some []
  | inherited_value => None
  end.

(** A call that throws leaves the registry as it was. *)
Definition perform (listeners : gmap string (list nat)) (c : Call)
    : gmap string (list nat) :=
  match c with
  | call_on event callback => default listeners (on event callback listeners)
  | call_off event callback => default listeners (off event callback listeners)
  end.

Definition perform_all (listeners : gmap string (list nat)) (cs : list Call)
    : gmap string (list nat) :=
  fold_left perform cs listeners.

(** No array sits under an inherited name. *)
Definition clean (listeners : gmap string (list nat)) : Prop :=
  forall event, inherited event = true -> listeners !! event = None.

End Registry.

(** One step of counting the registrations of [callback] for [event] that
    are still in force: an [on] adds one, an [off] drops them all. *)
Definition tally (event : string) (callback : nat) (n : nat) (c : Call) : nat :=
  match c with
  | call_on e cb => if String.eqb e event && Nat.eqb cb callback then S n else n
  | call_off e cb => if String.eqb e event && Nat.eqb cb callback then 0 else n
  end.

Definition registrations (event : string) (callback : nat) (cs : list Call) : nat :=
  fold_left (tally event callback) cs 0.

(** The callbacks called by an emission, in order. *)
Fixpoint calls (os : list Outcome) : list nat :=
  match os with
  | [] => []
  | called cb :: os => cb :: calls os
  | listener_error _ :: os => calls os
  end.

Fixpoint errors (os : list Outcome) : nat :=
  match os with
  | [] => 0
  | called _ :: os => errors os
  | listener_error _ :: os => S (errors os)
  end.

Definition occurrences (callback : nat) (cbs : list nat) : nat :=
  length (List.filter (Nat.eqb callback) cbs).

(** The array stored for [event], empty when there is none. *)
Definition registered (listeners : gmap string (list nat)) (event : string)
    : list nat :=
  default [] (listeners !! event).

(** The property names of [Object.prototype] in current engines. *)
Definition object_prototype_names : list string :=
  [ "constructor"; "__defineGetter__"; "__defineSetter__"; "hasOwnProperty";
    "__lookupGetter__"; "__lookupSetter__"; "isPrototypeOf";
    "propertyIsEnumerable"; "toString"; "valueOf"; "__proto__";
    "toLocaleString" ].

Definition standard_inherited (name : string) : bool :=
  existsb (String.eqb name) object_prototype_names.

End Listeners.

(** ** [JewelrySelector]: the table of styles and the highlighted button *)
Module JewelrySelector.
Import Data.

Definition jewelry : list Jewelry :=
  [ {| id := 1; name := "Gold Hoops"; type := "earrings"; color := "#FFD700";
       modelPath := Some "/models/gold-hoop-earring.glb"; scale := 1.5 |};
    {| id := 2; name := "Silver Studs"; type := "earrings"; color := "#C0C0C0";
       modelPath := Some "/models/silver-stud-earring.glb"; scale := 1.2 |};
    {| id := 3; name := "Rose Gold"; type := "earrings"; color := "#B76E79";
       modelPath := Some "/models/rose-gold-earring.glb"; scale := 1.5 |};
    {| id := 4; name := "Diamond"; type := "earrings"; color := "#E0E0E0";
       modelPath := Some "/models/diamond-earring.glb"; scale := 1.3 |} ].

(** [currentSelection?.id === item.id]. *)
Definition is_current (currentSelection : option Jewelry) (item : Jewelry) : bool :=
  match currentSelection with
  | Some c => (id c =? id item)%Z
  | None => false
  end.

(** The buttons in order, each with its highlight. *)
Definition buttons (currentSelection : option Jewelry) : list (Jewelry * bool) :=
  map (fun item => (item, is_current currentSelection item)) jewelry.

(** The items whose button is highlighted. *)
Definition highlighted (currentSelection : option Jewelry) : list Jewelry :=
  List.filter (is_current currentSelection) jewelry.

End JewelrySelector.

(** ** What [App] puts on the page *)
Module AppView.
Import Data.

Inductive Widget :=
| video_feed
| ar_overlay
| status_panel (connected face : bool) (fps : Q) (style : option string)
| error_banner (message : string)
| no_face_prompt
| snapshot_button
| jewelry_selector (currentSelection : option Jewelry)
| instructions.

(** The JSX returned by [App], top to bottom; [a && <X/>] shows [X] when [a]
    is truthy. *)
Definition view (s : App.State) : list Widget :=
  [ video_feed; ar_overlay;
    status_panel (App.isConnected s) (App.faceDetected s) (App.fps s)
                 (option_map name (App.selectedJewelry s)) ]
  ++ match App.backendError s with
     | Some e => if JS.truthy_str e then [error_banner e] else []
     | None => []
     end
  ++ (if App.isConnected s && negb (App.faceDetected s)
         && negb (JS.truthy_opt JS.truthy_str (App.backendError s))
      then [no_face_prompt] else [])
  ++ (if App.isConnected s && App.faceDetected s then [snapshot_button] else [])
  ++ (if App.isConnected s
      then [jewelry_selector (App.selectedJewelry s)] else [])
  ++ (if App.isConnected s && App.faceDetected s then [instructions] else []).

Definition is_banner (w : Widget) : bool :=
  match w with error_banner _ => true | _ => false end.

End AppView.

(** ** [SnapshotButton]: the name of the downloaded file *)
Module SnapshotButton.
Import Stdlib.Strings.Ascii.

(** One character through [replace(/[:.]/g, '-')]. *)
Definition replace_char (c : Ascii.ascii) : Ascii.ascii :=
  if (Ascii.eqb c ":" || Ascii.eqb c ".")%char then "-"%char else c.

Fixpoint replace (s : string) : string :=
  match s with
  | EmptyString => EmptyString
  | String c s' => String (replace_char c) (replace s')
  end.

(** [`jewelry-tryOn-${timestamp}.png`], [iso] being [new Date().toISOString()]. *)
Definition download_name (iso : string) : string :=
  ("jewelry-tryOn-" ++ replace iso ++ ".png")%string.

Fixpoint occurs (c : Ascii.ascii) (s : string) : nat :=
  match s with
  | EmptyString => 0
  | String d s' => (if Ascii.eqb d c then 1 else 0) + occurs c s'
  end.

End SnapshotButton.

(** ** The client wired to [App] as in its mount effect *)
Module System.
Import LandmarkWebSocket.

Record State := {
  world : World;
  page : Page.State
}.

(** The payloads passed to [emit], in order. *)
Fixpoint emitted (t : list Effect) : list Emitted :=
  match t with
  | [] => []
  | emit e :: t => e :: emitted t
  | _ :: t => emitted t
  end.

(** [App] registers one listener per event before [connect()], so every
    emission runs the matching listener at once. *)
Definition deliver_all (p : Page.State) (es : list Emitted) : Page.State :=
  fold_left Page.deliver es p.

Section Wired.
Context {rt : Runtime}.

Definition step (s : State) (e : Event) : option State :=
  match LandmarkWebSocket.step (world s) e with
  | Some w' =>
    Some {| world := w';
            page := deliver_all (page s)
                      (emitted (drop (length (trace (world s))) (trace w'))) |}
  | None => None
  end.

Fixpoint run (s : State) (es : list Event) : option State :=
  match es with
  | [] => Some s
  | e :: es =>
    match step s e with
    | Some s' => run s' es
    | None => None
    end
  end.

(** [App] mounted: a new client, its listeners, then [ws.connect()]. *)
Definition mounted (url : string) : State :=
  {| world := exec connect (boot url);
     page := deliver_all Page.initial (emitted (trace (exec connect (boot url)))) |}.

End Wired.

(** The message [App] stores on [maxReconnectAttemptsReached]. *)
Definition cannot_connect : string :=
  "Cannot connect to backend server. Please ensure the backend is running on http://localhost:8000".

(** While the retry loop runs on its own: no socket is open, the page says
    disconnected, the overlay is as mounted, and the error banner is the
    cannot-connect message exactly if exhaustion was reported. *)
Definition retrying (s : State) : Prop :=
  (forall i, sockets (world s) !! i <> Some OPEN) /\
  App.isConnected (Page.app (page s)) = false /\
  Page.overlay (page s) = Page.overlay Page.initial /\
  App.backendError (Page.app (page s)) =
    if 0 <? count is_max_reached (trace (world s)) then Some cannot_connect
    else None.

End System.

(** ** Reading a pose off the frames received *)
Module History.
Import Data.

(** The newest error-free frame. *)
Fixpoint latest_clean (newest_first : list LandmarkFrame) : option LandmarkFrame :=
  match newest_first with
  | [] => None
  | f :: older => if App.has_error f then latest_clean older else Some f
  end.

End History.

(** ** Bookkeeping kept by the client in every reachable state *)
Module Bookkeeping.
Import LandmarkWebSocket.

(** The only delays a reconnect is ever scheduled with. *)
Definition ladder : list Z := [1000; 2000; 4000; 8000; 16000]%Z.

Definition sound (u : string) (w : World) : Prop :=
  url (client w) = u /\
  maxReconnectAttempts (client w) = 5%Z /\
  (exists a k : nat,
     reconnectAttempts (client w) = Z.of_nat a /\ a <= 5 /\
     reconnectDelay (client w) = backoff k /\ k <= 5 /\
     (a < 5 -> k = a)) /\
  Forall (fun d => In d ladder) (timers w) /\
  Forall (fun d => In d ladder) (reconnect_delays (trace w)).

Definition is_connect (e : Event) : bool :=
  match e with call_connect => true | _ => false end.

Definition is_error_emit (e : Effect) : bool :=
  match e with emit error => true | _ => false end.

End Bookkeeping.

(** ** The landmark effect of [AROverlay.jsx] in IEEE double arithmetic *)
Module Doubles.
Local Open Scope float_scope.

Definition Vec3 : Type := float * float * float.

Record LandmarkPoint := { x : float; y : float; z : float }.

Record FaceRotation := { pitch : float; yaw : float; roll : float }.

Record Landmarks := {
  left_ear : option LandmarkPoint;
  right_ear : option LandmarkPoint;
  face_rotation : option FaceRotation
}.

Record VideoSize := { width : float; height : float }.

Record State := {
  leftEarPos : Vec3;
  rightEarPos : Vec3;
  faceRotation : Vec3;
  isVisible : bool
}.

Definition initial : State :=
  {| leftEarPos := (0, 0, -5);
     rightEarPos := (0, 0, -5);
     faceRotation := (0, 0, 0);
     isVisible := false |}.

Definition setLeftEarPos (v : Vec3) (s : State) : State :=
  {| leftEarPos := v; rightEarPos := rightEarPos s;
     faceRotation := faceRotation s; isVisible := isVisible s |}.

Definition setRightEarPos (v : Vec3) (s : State) : State :=
  {| leftEarPos := leftEarPos s; rightEarPos := v;
     faceRotation := faceRotation s; isVisible := isVisible s |}.

Definition setFaceRotation (v : Vec3) (s : State) : State :=
  {| leftEarPos := leftEarPos s; rightEarPos := rightEarPos s;
     faceRotation := v; isVisible := isVisible s |}.

Definition setIsVisible (b : bool) (s : State) : State :=
  {| leftEarPos := leftEarPos s; rightEarPos := rightEarPos s;
     faceRotation := faceRotation s; isVisible := b |}.

(** [videoSize ? videoSize.width / videoSize.height : 16 / 9]. *)
Definition aspect_of (videoSize : option VideoSize) : float :=
  match videoSize with
  | Some v => width v / height v
  | None => 16 / 9
  end.

(** [-(p.x * 2 - 1) * aspect], [-(p.y * 2 - 1)], [p.z * 2], every operation
    rounded to the nearest double. *)
Definition toRenderSpace (point : LandmarkPoint) (aspect : float) : Vec3 :=
  ((- (x point * 2 - 1)) * aspect, - (y point * 2 - 1), z point * 2).

(** The body of [useEffect(..., [landmarks, videoSize])]. *)
Definition landmark_effect
    (landmarks : option Landmarks) (videoSize : option VideoSize)
    (s : State) : State :=
  match landmarks with
  | None => setIsVisible false s
  | Some lm =>
    match left_ear lm, right_ear lm with
    | Some leftEar, Some rightEar =>
      let s := setIsVisible true s in
      let aspect := aspect_of videoSize in
      let s := setLeftEarPos (toRenderSpace leftEar aspect) s in
      let s := setRightEarPos (toRenderSpace rightEar aspect) s in
      match face_rotation lm with
      | Some r => setFaceRotation (pitch r, yaw r, roll r) s
      | None => s
      end
    | _, _ => setIsVisible false s
    end
  end.

(** Componentwise distance at most [eps]. *)
Definition within (eps : float) (u v : Vec3) : bool :=
  let '(u0, u1, u2) := u in
  let '(v0, v1, v2) := v in
  PrimFloat.leb (abs (u0 - v0)) eps && PrimFloat.leb (abs (u1 - v1)) eps
  && PrimFloat.leb (abs (u2 - v2)) eps.

(** The scenario of the specification, as [JSON.parse] reads it. *)
Definition scenario : Landmarks :=
  {| left_ear := Some {| x := 0.3; y := 0.4; z := 0.1 |};
     right_ear := Some {| x := 0.7; y := 0.4; z := 0.1 |};
     face_rotation := None |}.

Definition square_video : VideoSize := {| width := 480; height := 480 |}.

End Doubles.

(** ** The page when React commits at its own pace *)
Module Batched.

(** [app] is what the listeners have stored; [overlay] is the overlay as of
    the last commit.  Objects are told apart by a number: [landmarks_ref]
    and [videoSize_ref] name the objects now in the two state cells ([None]
    for [null]), [seen_landmarks] and [seen_videoSize] those the overlay was
    last rendered with. *)
Record State := {
  app : App.State;
  landmarks_ref : option nat;
  videoSize_ref : option nat;
  next_ref : nat;
  overlay : AROverlay.Mounted;
  seen_landmarks : option nat;
  seen_videoSize : option nat
}.

Definition initial : State :=
  {| app := App.initial; landmarks_ref := None; videoSize_ref := None;
     next_ref := 0; overlay := AROverlay.mount None None None;
     seen_landmarks := None; seen_videoSize := None |}.

(** [Object.is] on two references. *)
Definition same (a b : option nat) : bool :=
  match a, b with
  | None, None => true
  | Some m, Some n => Nat.eqb m n
  | _, _ => false
  end.

Inductive Input :=
| arrive (data : Data.LandmarkFrame)
| video_ready (size : Data.VideoSize)
| commit.

(** A frame runs [App]'s landmarks listener and nothing else: the state
    cells change, no render yet.  Landmarks out of [JSON.parse] are a new
    object. *)
Definition on_arrive (data : Data.LandmarkFrame) (s : State) : State :=
  if App.has_error data then
    {| app := App.on_landmarks data (app s);
       landmarks_ref := landmarks_ref s; videoSize_ref := videoSize_ref s;
       next_ref := next_ref s; overlay := overlay s;
       seen_landmarks := seen_landmarks s; seen_videoSize := seen_videoSize s |}
  else
    {| app := App.on_landmarks data (app s);
       landmarks_ref := match Data.landmarks data with
                        | Some _ => Some (next_ref s)
                        | None => None
                        end;
       videoSize_ref := videoSize_ref s;
       next_ref := S (next_ref s); overlay := overlay s;
       seen_landmarks := seen_landmarks s; seen_videoSize := seen_videoSize s |}.

Definition on_video_ready (size : Data.VideoSize) (s : State) : State :=
  {| app := App.handleVideoReady size (app s);
     landmarks_ref := landmarks_ref s;
     videoSize_ref := Some (next_ref s);
     next_ref := S (next_ref s); overlay := overlay s;
     seen_landmarks := seen_landmarks s; seen_videoSize := seen_videoSize s |}.

(** A commit renders the overlay with the cells as they are now; its effect
    runs if one of its two dependencies is another object than last time. *)
Definition on_commit (s : State) : State :=
  let l := App.landmarks (app s) in
  let v := App.videoSize (app s) in
  {| app := app s;
     landmarks_ref := landmarks_ref s; videoSize_ref := videoSize_ref s;
     next_ref := next_ref s;
     overlay :=
       {| AROverlay.props_landmarks := l;
          AROverlay.props_videoSize := v;
          AROverlay.props_selectedJewelry :=
            AROverlay.props_selectedJewelry (overlay s);
          AROverlay.state :=
            if same (landmarks_ref s) (seen_landmarks s)
               && same (videoSize_ref s) (seen_videoSize s)
            then AROverlay.state (overlay s)
            else AROverlay.landmark_effect l v (AROverlay.state (overlay s)) |};
     seen_landmarks := landmarks_ref s;
     seen_videoSize := videoSize_ref s |}.

Definition react (s : State) (i : Input) : State :=
  match i with
  | arrive data => on_arrive data s
  | video_ready size => on_video_ready size s
  | commit => on_commit s
  end.

Definition run (s : State) (inputs : list Input) : State :=
  fold_left react inputs s.

Abbreviation overlay_state s := (AROverlay.state (overlay s)).

(** References handed out so far are below [next_ref], and a cell holds
    [null] exactly when its reference says so. *)
Definition below (n : nat) (r : option nat) : Prop :=
  match r with Some m => m < n | None => True end.

Definition well_formed (s : State) : Prop :=
  below (next_ref s) (landmarks_ref s) /\
  below (next_ref s) (videoSize_ref s) /\
  below (next_ref s) (seen_landmarks s) /\
  below (next_ref s) (seen_videoSize s) /\
  (landmarks_ref s = None <-> App.landmarks (app s) = None) /\
  (videoSize_ref s = None <-> App.videoSize (app s) = None).

(** Nothing is waiting for a commit, as seen from a page of [Page]. *)
Definition settled_as (s : State) (p : Page.State) : Prop :=
  app s = Page.app p /\
  overlay s = Page.overlay p /\
  seen_landmarks s = landmarks_ref s /\
  seen_videoSize s = videoSize_ref s /\
  AROverlay.props_landmarks (Page.overlay p) = App.landmarks (Page.app p) /\
  AROverlay.props_videoSize (Page.overlay p) = App.videoSize (Page.app p) /\
  well_formed s.

End Batched.

(** * Properties *)

(** ** The coordinate transform and the rendered poses *)
Module OverlayProps.
Import Data Scene AROverlay.
Local Open Scope Q_scope.

(** The effect on a payload with both ears, field by field. *)
Lemma landmark_effect_both
    (lm : Landmarks) (l r : LandmarkPoint) (v : option VideoSize) (s : State) :
  left_ear lm = Some l -> right_ear lm = Some r ->
  let s' := landmark_effect (Some lm) v s in
  isVisible s' = true /\
  leftEarPos s' = toRenderSpace l (aspect_of v) /\
  rightEarPos s' = toRenderSpace r (aspect_of v) /\
  faceRotation s' =
    match face_rotation lm with
    | Some rot => (pitch rot, yaw rot, roll rot)
    | None => faceRotation s
    end /\
  modelError s' = modelError s.
Proof.
  intros Hl Hr. unfold landmark_effect. rewrite Hl, Hr.
  destruct (face_rotation lm); repeat split; reflexivity.
Qed.

(** The effect on a payload that lacks an ear touches visibility only. *)
Lemma landmark_effect_hidden
    (lm : option Landmarks) (v : option VideoSize) (s : State) :
  match lm with
  | Some m => left_ear m = None \/ right_ear m = None
  | None => True
  end ->
  landmark_effect lm v s = setIsVisible false s.
Proof.
  destruct lm as [m|]; [|reflexivity].
  unfold landmark_effect.
  destruct (left_ear m), (right_ear m); intros [H|H]; congruence.
Qed.

(** The effect never touches the load-failure flag. *)
Lemma landmark_effect_modelError lm v s :
  modelError (landmark_effect lm v s) = modelError s.
Proof.
  unfold landmark_effect.
  destruct lm as [m|]; [|reflexivity].
  destruct (left_ear m), (right_ear m), (face_rotation m); reflexivity.
Qed.



(** *** Object provisioning in the model-loading variant *)

Lemma jewelryScale_selected (d : Jewelry) :
  ~ scale d == 0 -> jewelryScale (Some d) = scale d.
Proof.
  intros H. unfold jewelryScale, JS.or_default, JS.truthy_num. simpl.
  destruct (Qeq_bool (scale d) 0) eqn:E; [|reflexivity].
  apply Qeq_bool_iff in E. contradiction.
Qed.

Lemma jewelryColor_selected (d : Jewelry) :
  color d <> "" -> jewelryColor (Some d) = color d.
Proof.
  intros H. unfold jewelryColor, JS.or_default, JS.truthy_str. simpl.
  destruct (String.eqb (color d) "") eqn:E; [|reflexivity].
  apply String.eqb_eq in E. contradiction.
Qed.

Lemma Earring_fallback mp pos rot sc col :
  Earring mp pos rot sc col true = ProceduralEarring pos rot sc col.
Proof. destruct mp; reflexivity. Qed.

Lemma useFallback_when (j : option Jewelry) (s : State) :
  modelPath_of j = None \/ modelError s = true -> useFallback_of j s = true.
Proof.
  unfold useFallback_of. intros [-> | ->].
  - reflexivity.
  - apply orb_true_r.
Qed.

Lemma render_fallback (j : option Jewelry) (s : State) :
  useFallback_of j s = true ->
  render j s =
    if isVisible s then
      [ ProceduralEarring (leftEarPos s) (left_rotation s)
                          (jewelryScale j) (jewelryColor j);
        ProceduralEarring (rightEarPos s) (right_rotation s)
                          (jewelryScale j) (jewelryColor j) ]
    else [].
Proof.
  intros H. unfold render. rewrite H, !Earring_fallback. reflexivity.
Qed.

Lemma render_fallback_no_load (j : option Jewelry) (s : State) (e : Element) :
  useFallback_of j s = true -> In e (render j s) -> loads_asset e = false.
Proof.
  intros H. rewrite (render_fallback j s H).
  destruct (isVisible s); simpl.
  - intros [<- | [<- | []]]; reflexivity.
  - intros [].
Qed.

Lemma modelError_handle (m : Mounted) (e : Event) :
  modelError (state m) = true -> modelError (state (handle m e)) = true.
Proof.
  intros H. destruct e; simpl; try assumption; try reflexivity.
  - destruct (same_ref _ _); [assumption|].
    rewrite landmark_effect_modelError. assumption.
  - destruct (same_ref _ _); [assumption|].
    rewrite landmark_effect_modelError. assumption.
Qed.

Lemma modelError_handle_all (es : list Event) (m : Mounted) :
  modelError (state m) = true ->
  modelError (state (handle_all m es)) = true.
Proof.
  revert m. induction es as [|e es IH]; intros m H; [exact H|].
  apply IH, modelError_handle, H.
Qed.

(** Before any failure a descriptor with a model path requests its model;
    after a canvas error the same descriptor gets the procedural hoop. *)
Example model_then_fallback :
  render_mounted (Examples.showing Examples.gold_hoops) =
    [ Suspense
        (LoadingEarring (leftEarPos (state (Examples.showing Examples.gold_hoops))))
        (ModelEarring "/models/gold-hoop-earring.glb"
           (leftEarPos (state (Examples.showing Examples.gold_hoops)))
           (left_rotation (state (Examples.showing Examples.gold_hoops))) 1.5);
      Suspense
        (LoadingEarring (rightEarPos (state (Examples.showing Examples.gold_hoops))))
        (ModelEarring "/models/gold-hoop-earring.glb"
           (rightEarPos (state (Examples.showing Examples.gold_hoops)))
           (right_rotation (state (Examples.showing Examples.gold_hoops))) 1.5) ] /\
  forall e,
    In e (render_mounted
            (handle (Examples.showing Examples.gold_hoops) CanvasError)) ->
    loads_asset e = false.
Proof.
  split; [reflexivity|].
  intros e. apply render_fallback_no_load, useFallback_when.
  right. reflexivity.
Qed.

(** C8: for a selected descriptor (with a non-zero scale and a non-empty
    colour, so that the [||] defaults do not apply) whose model path is
    null, or once the load-failure flag is set, every render draws the
    procedural earring: a torus hoop in the descriptor's colour plus a
    sphere accent, both sized by the descriptor's scale.  The canvas error
    handler sets the flag, nothing ever clears it, and from then on no
    render requests a model file, whatever happens next. *)
Theorem fallback_without_asset_or_after_failure
    (m : Mounted) (d : Jewelry)
    (Hsel : props_selectedJewelry m = Some d)
    (Hscale : ~ scale d == 0) (Hcolor : color d <> "")
    (Hbad : modelPath d = None \/ modelError (state m) = true) :
  let fallback pos rot := ProceduralEarring pos rot (scale d) (color d) in
  render_mounted m =
    (if isVisible (state m) then
       [ fallback (leftEarPos (state m)) (left_rotation (state m));
         fallback (rightEarPos (state m)) (right_rotation (state m)) ]
     else []) /\
  (forall pos rot,
     fallback pos rot =
     group pos rot
       [ {| mesh_position := (0, 0, 0);
            geometry := torusGeometry (0.015 * scale d) (0.003 * scale d) 16 32;
            material := meshStandardMaterial (color d) |};
         {| mesh_position := (0, -0.02 * scale d, 0);
            geometry := sphereGeometry (0.005 * scale d) 16 16;
            material := meshStandardMaterial "#FF6B9D" |} ]) /\
  (forall e, In e (render_mounted m) -> loads_asset e = false) /\
  modelError (state (handle m CanvasError)) = true /\
  (modelError (state m) = true ->
   forall es : list Event,
     let m' := handle_all m es in
     modelError (state m') = true /\
     (forall e, In e (render_mounted m') -> loads_asset e = false) /\
     (props_selectedJewelry m' = Some d ->
      render_mounted m' =
        if isVisible (state m') then
          [ fallback (leftEarPos (state m')) (left_rotation (state m'));
            fallback (rightEarPos (state m')) (right_rotation (state m')) ]
        else [])).
Proof.
  intros fallback.
  assert (Hshape : forall m' : Mounted,
             props_selectedJewelry m' = Some d ->
             useFallback_of (Some d) (state m') = true ->
             render_mounted m' =
               if isVisible (state m') then
                 [ fallback (leftEarPos (state m')) (left_rotation (state m'));
                   fallback (rightEarPos (state m')) (right_rotation (state m')) ]
               else []).
  { intros m' Hs Hu. unfold render_mounted. rewrite Hs.
    rewrite (render_fallback _ _ Hu).
    rewrite (jewelryScale_selected d Hscale), (jewelryColor_selected d Hcolor).
    reflexivity. }
  assert (Hu : useFallback_of (Some d) (state m) = true).
  { apply useFallback_when. simpl. exact Hbad. }
  split; [apply Hshape; assumption|].
  split; [intros pos rot; reflexivity|].
  split.
  { intros e. unfold render_mounted. rewrite Hsel.
    apply render_fallback_no_load, Hu. }
  split; [reflexivity|].
  intros Herr es m'.
  assert (Herr' : modelError (state m') = true)
    by (apply modelError_handle_all, Herr).
  split; [exact Herr'|].
  split.
  - intros e. unfold render_mounted.
    apply render_fallback_no_load, useFallback_when. right. exact Herr'.
  - intros Hs. apply Hshape; [exact Hs|].
    apply useFallback_when. right. exact Herr'.
Qed.

Lemma fallback_without_asset_or_after_failure_witness :
  render_mounted (Examples.showing Examples.plain_studs) =
    [ ProceduralEarring
        (leftEarPos (state (Examples.showing Examples.plain_studs)))
        (left_rotation (state (Examples.showing Examples.plain_studs)))
        1.2 "#C0C0C0";
      ProceduralEarring
        (rightEarPos (state (Examples.showing Examples.plain_studs)))
        (right_rotation (state (Examples.showing Examples.plain_studs)))
        1.2 "#C0C0C0" ].
Proof.
  assert (Hscale : ~ scale Examples.plain_studs == 0) by discriminate.
  assert (Hcolor : color Examples.plain_studs <> "") by discriminate.
  exact (proj1 (fallback_without_asset_or_after_failure
                  (Examples.showing Examples.plain_studs)
                  Examples.plain_studs eq_refl Hscale Hcolor
                  (or_introl eq_refl))).
Defined.

End OverlayProps.

(** ** The landmark effect in double arithmetic *)
Module DoublesProps.
Import Doubles.
Local Open Scope float_scope.

(** The double nearest to 0.4 lies above 0.4, so doubled and taken from 1 it
    gives a double below the one nearest to 0.2. *)
Lemma below_a_fifth : (0.19999999999999996 <> 0.2)%float.
Proof.
  intros H. apply (f_equal (fun v => PrimFloat.ltb v 0.2)) in H.
  vm_compute in H. discriminate H.
Qed.

(** C4 as stated fails: for the scenario frame and a square video the
    position stored for the left ear is not (0.4, 0.2, 0.2); its second
    coordinate is 0.19999999999999996. *)
Lemma scenario_position_is_rounded :
  leftEarPos (landmark_effect (Some scenario) (Some square_video) initial)
  <> (0.4, 0.2, 0.2).
Proof.
  intros H. apply (f_equal (fun v => snd (fst v))) in H.
  vm_compute in H. exact (below_a_fifth H).
Qed.

(** C4: with both ears present the effect stores, for each ear,
    (-(x*2-1)*a, -(y*2-1), z*2) computed in double arithmetic, where a is
    the quotient width/height of the video, or 16/9 while no size was
    reported; visibility becomes true; and for the left ear (0.3, 0.4, 0.1)
    with a = 1 the stored position is (0.4, 0.19999999999999996, 0.2),
    which is within 2^-54 of (0.4, 0.2, 0.2). *)
Theorem transform_in_doubles
    (lm : Landmarks) (l r : LandmarkPoint) (videoSize : option VideoSize)
    (s : State)
    (Hl : left_ear lm = Some l) (Hr : right_ear lm = Some r) :
  let a := match videoSize with
           | Some v => width v / height v
           | None => 16 / 9
           end in
  let s' := landmark_effect (Some lm) videoSize s in
  leftEarPos s' = ((- (x l * 2 - 1)) * a, - (y l * 2 - 1), z l * 2) /\
  rightEarPos s' = ((- (x r * 2 - 1)) * a, - (y r * 2 - 1), z r * 2) /\
  isVisible s' = true /\
  (x l = 0.3 -> y l = 0.4 -> z l = 0.1 -> a = 1 ->
   leftEarPos s' = (0.4, 0.19999999999999996, 0.2) /\
   within 0x1p-54 (leftEarPos s') (0.4, 0.2, 0.2) = true).
Proof.
  intros a s'.
  assert (HL : leftEarPos s' = ((- (x l * 2 - 1)) * a, - (y l * 2 - 1), z l * 2)).
  { unfold s', landmark_effect. rewrite Hl, Hr.
    destruct (face_rotation lm); reflexivity. }
  split; [exact HL|].
  split; [|split].
  - unfold s', landmark_effect. rewrite Hl, Hr.
    destruct (face_rotation lm); reflexivity.
  - unfold s', landmark_effect. rewrite Hl, Hr.
    destruct (face_rotation lm); reflexivity.
  - intros Hx Hy Hz Ha. rewrite HL, Hx, Hy, Hz, Ha.
    split; vm_compute; reflexivity.
Qed.

Lemma transform_in_doubles_witness :
  let s' := landmark_effect (Some scenario) (Some square_video) initial in
  leftEarPos s' = (0.4, 0.19999999999999996, 0.2) /\
  within 0x1p-54 (leftEarPos s') (0.4, 0.2, 0.2) = true /\
  isVisible s' = true.
Proof.
  destruct (transform_in_doubles scenario
              {| x := 0.3; y := 0.4; z := 0.1 |}
              {| x := 0.7; y := 0.4; z := 0.1 |}
              (Some square_video) initial eq_refl eq_refl)
    as (_ & _ & Hv & Hpos).
  destruct Hpos as [Hp Hw]; try reflexivity.
  split; [exact Hp|]. split; [exact Hw | exact Hv].
Defined.

End DoublesProps.

(** ** Frames through [App] into the overlay *)
Module PageProps.
Import Data.
Import Page.

Lemma in_sync_initial : in_sync initial.
Proof. split; reflexivity. Qed.

(** An error-free frame: the overlay either keeps a null prop untouched or
    re-runs its effect on the new landmarks. *)
Lemma receive_clean (p : State) (f : LandmarkFrame) :
  App.has_error f = false ->
  App.landmarks (app (receive p f)) = landmarks f /\
  AROverlay.props_landmarks (overlay (receive p f)) = landmarks f /\
  AROverlay.props_videoSize (overlay (receive p f)) =
    AROverlay.props_videoSize (overlay p) /\
  overlay_state (receive p f) =
    if AROverlay.same_ref (AROverlay.props_landmarks (overlay p)) (landmarks f)
    then overlay_state p
    else AROverlay.landmark_effect (landmarks f)
           (AROverlay.props_videoSize (overlay p)) (overlay_state p).
Proof.
  intros H. unfold receive, deliver, App.on_landmarks. rewrite H.
  repeat split; reflexivity.
Qed.

(** A frame with an error changes the error banner and nothing else. *)
Lemma receive_error (p : State) (f : LandmarkFrame) :
  App.has_error f = true ->
  receive p f =
    {| app := App.setBackendError (error f) (app p); overlay := overlay p |}.
Proof.
  intros H. unfold receive, deliver, App.on_landmarks. rewrite H. reflexivity.
Qed.

Lemma visible_effect lm v s :
  AROverlay.isVisible (AROverlay.landmark_effect lm v s) =
    match lm with
    | Some m =>
      match left_ear m, right_ear m with
      | Some _, Some _ => true
      | _, _ => false
      end
    | None => false
    end.
Proof.
  unfold AROverlay.landmark_effect.
  destruct lm as [m|]; [|reflexivity].
  destruct (left_ear m), (right_ear m), (face_rotation m); reflexivity.
Qed.

Lemma visible_receive_clean (p : State) (f : LandmarkFrame) :
  in_sync p -> App.has_error f = false ->
  visible (receive p f) = both_ears f.
Proof.
  intros [Hprops Hhid] H.
  destruct (receive_clean p f H) as (_ & _ & _ & Hst).
  unfold visible. rewrite Hst. unfold both_ears.
  destruct (landmarks f) as [m|] eqn:E.
  - replace (AROverlay.same_ref _ _) with false
      by (destruct (AROverlay.props_landmarks (overlay p)); reflexivity).
    rewrite visible_effect. reflexivity.
  - destruct (AROverlay.props_landmarks (overlay p)) eqn:E'; simpl.
    + reflexivity.
    + apply Hhid. symmetry. exact Hprops.
Qed.

Lemma in_sync_deliver (p : State) (e : LandmarkWebSocket.Emitted) :
  in_sync p -> in_sync (deliver p e).
Proof.
  intros Hs. destruct e as [status|f| |flag].
  - destruct Hs as [H1 H2]. destruct status; split; simpl; assumption.
  - change (in_sync (receive p f)).
    destruct (App.has_error f) eqn:E.
    + rewrite (receive_error p f E). exact Hs.
    + destruct (receive_clean p f E) as (Ha & Hp & _ & _).
      split; [congruence|].
      intros Hn. rewrite (visible_receive_clean p f Hs E).
      unfold both_ears. rewrite Ha in Hn. rewrite Hn. reflexivity.
  - exact Hs.
  - exact Hs.
Qed.

Lemma in_sync_videoReady (p : State) (size : VideoSize) :
  in_sync p -> in_sync (videoReady p size).
Proof.
  intros [H1 H2]. split; [exact H1|].
  simpl. intros Hn. unfold visible. simpl.
  replace (AROverlay.same_ref _ _) with false
    by (destruct (AROverlay.props_videoSize (overlay p)); reflexivity).
  rewrite visible_effect, H1, Hn. reflexivity.
Qed.

Lemma in_sync_react_all (inputs : list Input) (p : State) :
  in_sync p -> in_sync (react_all p inputs).
Proof.
  revert p. induction inputs as [|i inputs IH]; intros p H; [exact H|].
  apply IH. destruct i; [apply in_sync_deliver | apply in_sync_videoReady];
    exact H.
Qed.

(** C1 (as the code has it): after any history, a frame without an error
    leaves the overlay visible exactly when it carries non-null landmarks
    with both ears, whatever [face_detected] says; a frame with an error
    leaves visibility as it was.  So visibility is a function of the
    [landmarks] of the most recent error-free frame. *)
Theorem visibility_after_frame (inputs : list Input) (f : LandmarkFrame) :
  let p := react_all initial inputs in
  (App.has_error f = false ->
   (visible (receive p f) = true <-> both_ears f = true)) /\
  (App.has_error f = true -> visible (receive p f) = visible p) /\
  (forall f' : LandmarkFrame,
     landmarks f' = landmarks f -> error f' = error f ->
     visible (receive p f') = visible (receive p f)).
Proof.
  intros p.
  assert (Hs : in_sync p) by (apply in_sync_react_all, in_sync_initial).
  split; [|split].
  - intros H. rewrite (visible_receive_clean p f Hs H). reflexivity.
  - intros H. rewrite (receive_error p f H). reflexivity.
  - intros f' Hl He.
    assert (Hh : App.has_error f' = App.has_error f)
      by (unfold App.has_error; rewrite He; reflexivity).
    destruct (App.has_error f) eqn:E.
    + rewrite (receive_error p f E), (receive_error p f' Hh). reflexivity.
    + rewrite (visible_receive_clean p f Hs E),
              (visible_receive_clean p f' Hs Hh).
      unfold both_ears. rewrite Hl. reflexivity.
Qed.

Lemma visibility_after_frame_witness :
  visible (receive (react_all initial
                      [video_ready Examples.square_video;
                       from_client (LandmarkWebSocket.connected true)])
                   Examples.undetected_frame) = true.
Proof.
  apply (visibility_after_frame
           [video_ready Examples.square_video;
            from_client (LandmarkWebSocket.connected true)]
           Examples.undetected_frame); reflexivity.
Defined.

(** C1 as stated fails: a frame with both ears and [face_detected: false]
    makes the overlay visible, and a frame with an error and null landmarks
    leaves a visible overlay visible. *)
Lemma visibility_ignores_face_detected :
  ~ (visible (receive initial Examples.undetected_frame) = true <->
     both_ears Examples.undetected_frame = true /\
     face_detected_true Examples.undetected_frame = true) /\
  ~ (visible (receive Examples.tracking_page Examples.failing_frame) = true <->
     both_ears Examples.failing_frame = true /\
     face_detected_true Examples.failing_frame = true).
Proof.
  split; intros [H _]; specialize (H eq_refl); destruct H as [_ H];
    discriminate H.
Qed.

(** C5: a frame whose [error] is a non-empty string leaves the stored
    landmarks, fps and face flag, and the whole overlay (so what is
    rendered), unchanged; only the error banner is set. *)
Theorem error_frame_keeps_last_pose
    (p : State) (f : LandmarkFrame) (e : string)
    (He : error f = Some e) (Hne : e <> "") :
  let p' := receive p f in
  App.landmarks (app p') = App.landmarks (app p) /\
  App.fps (app p') = App.fps (app p) /\
  App.faceDetected (app p') = App.faceDetected (app p) /\
  overlay p' = overlay p /\
  AROverlay.render_simple (overlay_state p') =
    AROverlay.render_simple (overlay_state p) /\
  App.backendError (app p') = Some e /\
  App.isConnected (app p') = App.isConnected (app p) /\
  App.videoSize (app p') = App.videoSize (app p) /\
  App.selectedJewelry (app p') = App.selectedJewelry (app p).
Proof.
  intros p'.
  assert (H : App.has_error f = true).
  { unfold App.has_error, JS.truthy_opt, JS.truthy_str. rewrite He.
    destruct (String.eqb e "") eqn:E; [|reflexivity].
    apply String.eqb_eq in E. contradiction. }
  unfold p'. rewrite (receive_error p f H), He.
  repeat split; reflexivity.
Qed.

Lemma error_frame_keeps_last_pose_witness :
  overlay (receive Examples.tracking_page Examples.failing_frame) =
    overlay Examples.tracking_page /\
  App.backendError (app (receive Examples.tracking_page Examples.failing_frame))
    = Some "camera unavailable".
Proof.
  assert (Hne : "camera unavailable" <> "") by discriminate.
  destruct (error_frame_keeps_last_pose Examples.tracking_page
              Examples.failing_frame "camera unavailable" eq_refl Hne)
    as (_ & _ & _ & Ho & _ & Hb & _).
  split; [exact Ho | exact Hb].
Defined.

(** A tracked frame re-runs the effect on its landmarks. *)
End PageProps.

(** ** The page under any commit schedule *)
Module BatchedProps.
Import Data.
Import Batched.

Lemma same_refl (r : option nat) : same r r = true.
Proof. destruct r as [n|]; [apply Nat.eqb_refl | reflexivity]. Qed.

(** A reference just handed out is none of the earlier ones. *)
Lemma same_fresh (n m : nat) (r : option nat) :
  below n r -> n <= m -> same (Some m) r = false.
Proof.
  destruct r as [k|]; simpl; [|reflexivity].
  intros H1 H2. apply Nat.eqb_neq. lia.
Qed.

Lemma below_mono (n m : nat) (r : option nat) :
  below n r -> n <= m -> below m r.
Proof. destruct r; simpl; [lia | trivial]. Qed.

Lemma well_formed_initial : well_formed initial.
Proof. repeat split; trivial. Qed.

Lemma well_formed_react (s : State) (i : Input) :
  well_formed s -> well_formed (react s i).
Proof.
  intros (H1 & H2 & H3 & H4 & H5 & H6).
  assert (Hn : next_ref s <= S (next_ref s)) by lia.
  destruct i as [data|size|]; simpl.
  - unfold on_arrive, App.on_landmarks.
    destruct (App.has_error data); simpl.
    + split; [exact H1|]. split; [exact H2|]. split; [exact H3|].
      split; [exact H4|]. split; [exact H5 | exact H6].
    + split; [destruct (landmarks data); simpl; [lia | trivial]|].
      split; [exact (below_mono _ _ _ H2 Hn)|].
      split; [exact (below_mono _ _ _ H3 Hn)|].
      split; [exact (below_mono _ _ _ H4 Hn)|].
      split; [|exact H6].
      destruct (landmarks data); split; intros E; (discriminate E || reflexivity).
  - unfold on_video_ready. simpl.
    split; [exact (below_mono _ _ _ H1 Hn)|].
    split; [simpl; lia|].
    split; [exact (below_mono _ _ _ H3 Hn)|].
    split; [exact (below_mono _ _ _ H4 Hn)|].
    split; [exact H5|].
    split; intros E; discriminate E.
  - unfold on_commit. simpl.
    split; [exact H1|]. split; [exact H2|]. split; [exact H1|].
    split; [exact H2|]. split; [exact H5 | exact H6].
Qed.

Lemma well_formed_run (inputs : list Input) :
  forall s, well_formed s -> well_formed (run s inputs).
Proof.
  induction inputs as [|i inputs IH]; intros s H; [exact H|].
  simpl. apply IH, well_formed_react, H.
Qed.

(** Every state the page can reach is well formed. *)
Lemma well_formed_reachable (inputs : list Input) :
  well_formed (run initial inputs).
Proof. apply well_formed_run, well_formed_initial. Qed.

Lemma settled_initial : settled_as initial Page.initial.
Proof. repeat split; trivial. Qed.

(** A commit after every frame is the schedule of [Page]. *)
Lemma commit_per_frame (s : State) (p : Page.State) (f : LandmarkFrame) :
  settled_as s p ->
  settled_as (run s [arrive f; commit]) (Page.receive p f).
Proof.
  intros (Ha & Ho & Hl & Hv & Hpl & Hpv & Hwf).
  assert (Hwf' : well_formed (run s [arrive f; commit]))
    by (apply well_formed_run, Hwf).
  destruct Hwf as (B1 & B2 & B3 & B4 & N1 & N2).
  destruct s as [a lr vr n o sl sv], p as [pa po].
  simpl in Ha, Ho, Hl, Hv, Hpl, Hpv, B1, B2, B3, B4, N1, N2. subst pa po sl sv.
  unfold settled_as, run, Page.receive, Page.deliver in *.
  simpl in Hwf' |- *. unfold on_arrive, on_commit in *. simpl in Hwf' |- *.
  unfold App.on_landmarks in *.
  destruct (App.has_error f) eqn:E; simpl in Hwf' |- *.
  - rewrite !same_refl. simpl.
    split; [reflexivity|].
    split; [destruct o; simpl in *; congruence|].
    split; [reflexivity|]. split; [reflexivity|].
    split; [exact Hpl|]. split; [exact Hpv | exact Hwf'].
  - rewrite same_refl, andb_true_r.
    split; [reflexivity|].
    split.
    + rewrite <- Hpv.
      destruct (landmarks f) as [lm|] eqn:El.
      * rewrite (same_fresh n n _ B1 (Nat.le_refl _)).
        destruct (AROverlay.props_landmarks o); reflexivity.
      * rewrite Hpl.
        destruct (App.landmarks a) as [lm0|] eqn:E0.
        -- destruct lr as [k|]; [reflexivity|].
           assert (Hn : @None Landmarks = None -> False); [|exfalso; tauto].
           intros _. destruct N1 as [N1 _]. specialize (N1 eq_refl).
           discriminate N1.
        -- destruct N1 as [_ N1]. rewrite (N1 eq_refl). reflexivity.
    + split; [reflexivity|]. split; [reflexivity|].
      split; [reflexivity|]. split; [exact Hpv | exact Hwf'].
Qed.

(** The same for a video size reported by the feed. *)
Lemma commit_per_video_size (s : State) (p : Page.State) (size : VideoSize) :
  settled_as s p ->
  settled_as (run s [video_ready size; commit]) (Page.videoReady p size).
Proof.
  intros (Ha & Ho & Hl & Hv & Hpl & Hpv & Hwf).
  assert (Hwf' : well_formed (run s [video_ready size; commit]))
    by (apply well_formed_run, Hwf).
  destruct Hwf as (B1 & B2 & B3 & B4 & N1 & N2).
  destruct s as [a lr vr n o sl sv], p as [pa po].
  simpl in Ha, Ho, Hl, Hv, Hpl, Hpv, B1, B2, B3, B4, N1, N2. subst pa po sl sv.
  unfold settled_as, run, Page.videoReady in *.
  simpl in Hwf' |- *. unfold on_video_ready, on_commit in *. simpl in Hwf' |- *.
  pose proof (same_fresh n n _ B2 (Nat.le_refl _)) as Hs. simpl in Hs.
  rewrite Hs, andb_false_r.
  split; [reflexivity|].
  split; [rewrite Hpl; destruct (AROverlay.props_videoSize o); reflexivity|].
  split; [reflexivity|]. split; [reflexivity|].
  split; [exact Hpl|]. split; [reflexivity | exact Hwf'].
Qed.

(** A tracked frame followed by a commit runs the effect on it. *)
Lemma arrive_commit_tracked
    (s : State) (f : LandmarkFrame) (lm : Landmarks) (l r : LandmarkPoint) :
  well_formed s -> Page.tracked f lm l r ->
  overlay_state (run s [arrive f; commit]) =
    AROverlay.landmark_effect (Some lm) (App.videoSize (app s)) (overlay_state s) /\
  App.videoSize (app (run s [arrive f; commit])) = App.videoSize (app s).
Proof.
  intros (_ & _ & B3 & _) (He & Hlm & _ & _).
  pose proof (same_fresh (next_ref s) (next_ref s) _ B3 (Nat.le_refl _)) as Hs.
  simpl in Hs.
  simpl. unfold on_commit, on_arrive, App.on_landmarks. rewrite He, Hlm. simpl.
  rewrite Hs. split; reflexivity.
Qed.

(** Two tracked frames stored before one commit: the effect runs once, on
    the second. *)
Lemma arrive_twice_commit_tracked
    (s : State) (f1 f2 : LandmarkFrame) (lm1 lm2 : Landmarks)
    (l1 r1 l2 r2 : LandmarkPoint) :
  well_formed s -> Page.tracked f1 lm1 l1 r1 -> Page.tracked f2 lm2 l2 r2 ->
  overlay_state (run s [arrive f1; arrive f2; commit]) =
    AROverlay.landmark_effect (Some lm2) (App.videoSize (app s)) (overlay_state s).
Proof.
  intros (_ & _ & B3 & _) (He1 & Hlm1 & _ & _) (He2 & Hlm2 & _ & _).
  pose proof (same_fresh (next_ref s) (S (next_ref s)) _ B3
                (Nat.le_succ_diag_r _)) as Hs.
  simpl in Hs.
  simpl. unfold on_commit, on_arrive, App.on_landmarks.
  rewrite He1, Hlm1. simpl. rewrite He2, Hlm2. simpl.
  rewrite Hs. reflexivity.
Qed.

(** C6 as stated fails: on a fresh page, a frame with a rotation and a frame
    without one, both stored before React commits, leave the rotation used
    for rendering at zero, not at the rotation of the first frame, while
    the ears are placed from the second frame. *)
Lemma rotation_lost_in_one_commit :
  let s := run initial [arrive Examples.turned_frame;
                        arrive Examples.scenario_frame; commit] in
  AROverlay.isVisible (overlay_state s) = true /\
  AROverlay.leftEarPos (overlay_state s) =
    AROverlay.toRenderSpace Examples.ear_03 (16 / 9)%Q /\
  AROverlay.faceRotation (overlay_state s) = (0, 0, 0)%Q /\
  ~ vec3_eq (AROverlay.faceRotation (overlay_state s))
      (pitch Examples.turned, yaw Examples.turned, roll Examples.turned).
Proof.
  split; [reflexivity|]. split; [reflexivity|]. split; [reflexivity|].
  intros (H & _). vm_compute in H. discriminate H.
Qed.

(** C6: three tracked frames, the first with rotation [rot1], the second
    without a rotation, the third with rotation [rot3].  If React commits
    after each of them, the rotation stored after the second frame (and so
    the rendered one) is still [rot1], while both ear positions come from
    the second frame, and the third frame replaces the rotation by [rot3].
    If the first two frames are stored before one commit, the rotation is
    the one from before the first frame, and the positions still come from
    the second. *)
Theorem rotation_held_between_commits
    (s : State) (f1 f2 f3 : LandmarkFrame) (lm1 lm2 lm3 : Landmarks)
    (l1 r1 l2 r2 l3 r3 : LandmarkPoint) (rot1 rot3 : FaceRotation)
    (Hwf : well_formed s)
    (T1 : Page.tracked f1 lm1 l1 r1) (R1 : face_rotation lm1 = Some rot1)
    (T2 : Page.tracked f2 lm2 l2 r2) (R2 : face_rotation lm2 = None)
    (T3 : Page.tracked f3 lm3 l3 r3) (R3 : face_rotation lm3 = Some rot3) :
  let a := match App.videoSize (app s) with
           | Some v => (width v / height v)%Q
           | None => (16 / 9)%Q
           end in
  let s1 := run s [arrive f1; commit] in
  let s2 := run s1 [arrive f2; commit] in
  let s3 := run s2 [arrive f3; commit] in
  let b := run s [arrive f1; arrive f2; commit] in
  (AROverlay.faceRotation (overlay_state s1) = (pitch rot1, yaw rot1, roll rot1) /\
   AROverlay.faceRotation (overlay_state s2) = (pitch rot1, yaw rot1, roll rot1) /\
   AROverlay.left_rotation (overlay_state s2) =
     (pitch rot1 * 0.5, yaw rot1 * 0.5, roll rot1)%Q /\
   AROverlay.right_rotation (overlay_state s2) =
     (pitch rot1 * 0.5, JS.Math_PI + yaw rot1 * 0.5, - roll rot1)%Q /\
   AROverlay.leftEarPos (overlay_state s2) = AROverlay.toRenderSpace l2 a /\
   AROverlay.rightEarPos (overlay_state s2) = AROverlay.toRenderSpace r2 a /\
   AROverlay.isVisible (overlay_state s2) = true /\
   AROverlay.faceRotation (overlay_state s3) = (pitch rot3, yaw rot3, roll rot3)) /\
  (AROverlay.faceRotation (overlay_state b) =
     AROverlay.faceRotation (overlay_state s) /\
   AROverlay.leftEarPos (overlay_state b) = AROverlay.toRenderSpace l2 a /\
   AROverlay.rightEarPos (overlay_state b) = AROverlay.toRenderSpace r2 a /\
   AROverlay.isVisible (overlay_state b) = true).
Proof.
  intros a s1 s2 s3 b.
  assert (W1 : well_formed s1) by (apply well_formed_run, Hwf).
  assert (W2 : well_formed s2) by (apply well_formed_run, W1).
  destruct (arrive_commit_tracked s f1 lm1 l1 r1 Hwf T1) as [S1 V1].
  destruct (arrive_commit_tracked s1 f2 lm2 l2 r2 W1 T2) as [S2 V2].
  destruct (arrive_commit_tracked s2 f3 lm3 l3 r3 W2 T3) as [S3 V3].
  pose proof (arrive_twice_commit_tracked s f1 f2 lm1 lm2 l1 r1 l2 r2 Hwf T1 T2)
    as SB.
  fold s1 in S1, V1. fold s2 in S2, V2. fold s3 in S3. fold b in SB.
  destruct T1 as (_ & _ & El1 & Er1).
  destruct T2 as (_ & _ & El2 & Er2).
  destruct T3 as (_ & _ & El3 & Er3).
  pose proof (OverlayProps.landmark_effect_both lm1 l1 r1
                (App.videoSize (app s)) (overlay_state s)
                El1 Er1) as (_ & _ & _ & F1 & _).
  pose proof (OverlayProps.landmark_effect_both lm2 l2 r2
                (App.videoSize (app s1)) (overlay_state s1)
                El2 Er2) as (Vis2 & PL2 & PR2 & F2 & _).
  pose proof (OverlayProps.landmark_effect_both lm3 l3 r3
                (App.videoSize (app s2)) (overlay_state s2)
                El3 Er3) as (_ & _ & _ & F3 & _).
  pose proof (OverlayProps.landmark_effect_both lm2 l2 r2
                (App.videoSize (app s)) (overlay_state s)
                El2 Er2) as (VisB & PLB & PRB & FB & _).
  rewrite <- S1, R1 in F1. rewrite <- S2 in Vis2, PL2, PR2, F2.
  rewrite <- S3, R3 in F3. rewrite R2, F1 in F2. rewrite V1 in PL2, PR2.
  rewrite <- SB in VisB, PLB, PRB, FB. rewrite R2 in FB.
  assert (Ea : AROverlay.aspect_of (App.videoSize (app s)) = a)
    by (unfold a, AROverlay.aspect_of; destruct (App.videoSize (app s));
        reflexivity).
  rewrite Ea in PL2, PR2, PLB, PRB.
  split.
  - split; [exact F1|]. split; [exact F2|].
    split; [unfold AROverlay.left_rotation; rewrite F2; reflexivity|].
    split; [unfold AROverlay.right_rotation; rewrite F2; reflexivity|].
    split; [exact PL2|]. split; [exact PR2|].
    split; [exact Vis2|]. exact F3.
  - split; [exact FB|]. split; [exact PLB|]. split; [exact PRB | exact VisB].
Qed.

Lemma rotation_held_between_commits_witness :
  let s1 := run initial [arrive Examples.turned_frame; commit] in
  let s2 := run s1 [arrive Examples.scenario_frame; commit] in
  let b := run initial [arrive Examples.turned_frame;
                        arrive Examples.scenario_frame; commit] in
  AROverlay.faceRotation (overlay_state s2) = (0.2, -0.4, 0.1)%Q /\
  AROverlay.leftEarPos (overlay_state s2) =
    AROverlay.toRenderSpace Examples.ear_03 (16 / 9)%Q /\
  AROverlay.faceRotation (overlay_state b) = (0, 0, 0)%Q.
Proof.
  assert (T1 : Page.tracked Examples.turned_frame
                 Examples.ears_turned Examples.ear_05 Examples.ear_07)
    by (repeat split; reflexivity).
  assert (T2 : Page.tracked Examples.scenario_frame
                 Examples.ears_only Examples.ear_03 Examples.ear_07)
    by (repeat split; reflexivity).
  assert (T3 : Page.tracked Examples.tilted_frame
                 Examples.ears_tilted Examples.ear_03 Examples.ear_05)
    by (repeat split; reflexivity).
  assert (W : well_formed initial) by (repeat split; trivial).
  destruct (rotation_held_between_commits initial _ _ _ _ _ _ _ _ _ _ _ _
              Examples.turned Examples.tilted
              W T1 eq_refl T2 eq_refl T3 eq_refl)
    as ((_ & F2 & _ & _ & PL2 & _) & (FB & _)).
  split; [exact F2|]. split; [exact PL2 | exact FB].
Defined.

End BatchedProps.

(** ** The reconnecting client *)
Module ClientProps.
Import LandmarkWebSocket.

Lemma count_app (p : Effect -> bool) (t u : list Effect) :
  count p (t ++ u) = count p t + count p u.
Proof. induction t as [|e t IH]; simpl; [reflexivity|]. rewrite IH. lia. Qed.

Lemma reconnect_delays_app (t u : list Effect) :
  reconnect_delays (t ++ u) = reconnect_delays t ++ reconnect_delays u.
Proof.
  induction t as [|e t IH]; simpl; [reflexivity|].
  destruct e; simpl; rewrite IH; reflexivity.
Qed.

(** Replacing the state of one socket moves the number of live sockets by
    the difference of the two states. *)
Lemma live_insert (l : list ReadyState) (i : nat) (st st' : ReadyState) :
  l !! i = Some st ->
  length (List.filter is_live (<[i := st']> l)) + (if is_live st then 1 else 0) =
  length (List.filter is_live l) + (if is_live st' then 1 else 0).
Proof.
  revert i. induction l as [|a l IH]; intros i H; [discriminate H|].
  destruct i as [|i]; simpl in *.
  - injection H as ->. destruct (is_live st), (is_live st'); simpl; lia.
  - specialize (IH i H). destruct (is_live a); simpl; lia.
Qed.

Lemma live_new (l : list ReadyState) :
  length (List.filter is_live (l ++ [CONNECTING])) =
  S (length (List.filter is_live l)).
Proof. rewrite List.filter_app, length_app. simpl. lia. Qed.

Lemma no_live_closed (l : list ReadyState) (i : nat) (st : ReadyState) :
  length (List.filter is_live l) = 0 -> l !! i = Some st -> st = CLOSED.
Proof.
  revert i. induction l as [|a l IH]; intros i H0 H; [discriminate H|].
  simpl in H0. destruct (is_live a) eqn:E; [discriminate H0|].
  destruct i as [|i]; simpl in H.
  - injection H as <-. destruct a; [discriminate E..|reflexivity].
  - exact (IH i H0 H).
Qed.

Section WithRuntime.
Context {rt : Runtime}.

(** *** What each handler does, in closed form *)

Lemma exec_connect (w : World) :
  exec connect w =
    if WebSocket_accepts (url (client w)) then
      {| client := set_ws (Some (length (sockets w))) (client w);
         sockets := sockets w ++ [CONNECTING];
         timers := timers w;
         trace := trace w ++
                    [new_WebSocket (url (client w)) (length (sockets w))] |}
    else
      {| client := client w; sockets := sockets w; timers := timers w;
         trace := trace w ++
                    [console_error "Error creating WebSocket connection:";
                     emit error] |}.
Proof.
  unfold exec, connect, bind, this. simpl.
  destruct (WebSocket_accepts (url (client w))); simpl;
    [reflexivity | rewrite <- app_assoc; reflexivity].
Qed.

Lemma exec_onopen (w : World) :
  exec onopen w =
    {| client := set_reconnectDelay 1000 (set_reconnectAttempts 0 (client w));
       sockets := sockets w; timers := timers w;
       trace := trace w ++
                  [console_log "WebSocket connected"; emit (connected true)] |}.
Proof.
  unfold exec, onopen, bind. simpl. rewrite <- app_assoc. reflexivity.
Qed.

Lemma exec_onmessage (w : World) (data : string) :
  exec (onmessage data) w =
    {| client := client w; sockets := sockets w; timers := timers w;
       trace := trace w ++
                  [match JSON_parse data with
                   | Some frame => emit (landmarks frame)
                   | None => console_error "Error parsing WebSocket message:"
                   end] |}.
Proof. unfold exec, onmessage. destruct (JSON_parse data); reflexivity. Qed.

Lemma exec_onerror (w : World) :
  exec onerror w =
    {| client := client w; sockets := sockets w; timers := timers w;
       trace := trace w ++ [console_error "WebSocket error:"; emit error] |}.
Proof.
  unfold exec, onerror, bind. simpl. rewrite <- app_assoc. reflexivity.
Qed.

Lemma exec_onclose (w : World) :
  let c := client w in
  exec onclose w =
    if (reconnectAttempts c <? maxReconnectAttempts c)%Z then
      {| client := set_reconnectDelay
                     (Z.min (reconnectDelay c * 2) 30000)
                     (set_reconnectAttempts (reconnectAttempts c + 1) c);
         sockets := sockets w;
         timers := timers w ++ [reconnectDelay c];
         trace := trace w ++
                    [console_log "WebSocket disconnected";
                     emit (connected false);
                     console_log_reconnect (reconnectAttempts c + 1)
                                           (maxReconnectAttempts c);
                     setTimeout_connect (reconnectDelay c)] |}
    else
      {| client := c; sockets := sockets w; timers := timers w;
         trace := trace w ++
                    [console_log "WebSocket disconnected";
                     emit (connected false);
                     console_error "Max reconnection attempts reached";
                     emit (maxReconnectAttemptsReached true)] |}.
Proof.
  intros c. unfold exec, onclose, bind, this. simpl. fold c.
  destruct (reconnectAttempts c <? maxReconnectAttempts c)%Z; simpl;
    rewrite <- !app_assoc; reflexivity.
Qed.

Lemma exec_disconnect (w : World) :
  exec disconnect w =
    match ws (client w) with
    | Some i =>
      {| client := set_ws None
                     (set_reconnectAttempts
                        (maxReconnectAttempts (client w)) (client w));
         sockets := match sockets w !! i with
                    | Some st => <[i := closing st]> (sockets w)
                    | None => sockets w
                    end;
         timers := timers w;
         trace := trace w ++ [ws_close i] |}
    | None => w
    end.
Proof.
  unfold exec, disconnect, bind, this. simpl.
  destruct (ws (client w)); reflexivity.
Qed.

(** *** One turn of the event loop *)

Lemma step_close (w w' : World) (i : nat) :
  step w (sock_close i) = Some w' ->
  exists st, sockets w !! i = Some st /\ is_live st = true /\
             w' = exec onclose (set_socket i CLOSED w).
Proof.
  unfold step. destruct (sockets w !! i) as [st|] eqn:E; [|discriminate].
  destruct st; intros H; try discriminate H; injection H as <-;
    eexists; repeat split.
Qed.

Lemma in_flight_closed (w : World) (i : nat) (st : ReadyState) :
  sockets w !! i = Some st -> is_live st = true ->
  S (live_sockets (set_socket i CLOSED w)) = live_sockets w.
Proof.
  intros H Hl. unfold live_sockets. simpl.
  pose proof (live_insert (sockets w) i st CLOSED H) as E.
  rewrite Hl in E. simpl in E. lia.
Qed.

Lemma length_drop_timer (l : list Z) (k : nat) (d : Z) :
  l !! k = Some d -> S (length (take k l ++ drop (S k) l)) = length l.
Proof.
  intros H. apply lookup_lt_Some in H.
  rewrite length_app, length_take, length_drop. lia.
Qed.

(** A failed attempt with retries left: one more attempt counted, the
    current delay scheduled, the delay doubled up to the cap. *)
Lemma step_close_retry (w w' : World) (i : nat) :
  step w (sock_close i) = Some w' ->
  (reconnectAttempts (client w) < maxReconnectAttempts (client w))%Z ->
  client w' =
    set_reconnectDelay (Z.min (reconnectDelay (client w) * 2) 30000)
      (set_reconnectAttempts (reconnectAttempts (client w) + 1) (client w)) /\
  timers w' = timers w ++ [reconnectDelay (client w)] /\
  trace w' = trace w ++
               [console_log "WebSocket disconnected";
                emit (connected false);
                console_log_reconnect (reconnectAttempts (client w) + 1)
                                      (maxReconnectAttempts (client w));
                setTimeout_connect (reconnectDelay (client w))] /\
  in_flight w' = in_flight w.
Proof.
  intros H Hlt. destruct (step_close w w' i H) as (st & Hi & Hl & ->).
  rewrite exec_onclose. simpl.
  apply Z.ltb_lt in Hlt. rewrite Hlt. simpl.
  repeat split. unfold in_flight. simpl.
  pose proof (in_flight_closed w i st Hi Hl) as E.
  unfold live_sockets in *. simpl in *. rewrite length_app. simpl. lia.
Qed.

(** A failed attempt with no retry left: the exhaustion is reported and
    nothing is scheduled. *)
Lemma step_close_exhausted (w w' : World) (i : nat) :
  step w (sock_close i) = Some w' ->
  (maxReconnectAttempts (client w) <= reconnectAttempts (client w))%Z ->
  client w' = client w /\
  timers w' = timers w /\
  trace w' = trace w ++
               [console_log "WebSocket disconnected";
                emit (connected false);
                console_error "Max reconnection attempts reached";
                emit (maxReconnectAttemptsReached true)] /\
  S (in_flight w') = in_flight w.
Proof.
  intros H Hge. destruct (step_close w w' i H) as (st & Hi & Hl & ->).
  rewrite exec_onclose. simpl.
  apply Z.ltb_ge in Hge. rewrite Hge. simpl.
  repeat split. unfold in_flight. simpl.
  pose proof (in_flight_closed w i st Hi Hl) as E.
  unfold live_sockets in *. simpl in *. lia.
Qed.

(** Messages, errors and timers leave the retry bookkeeping alone. *)
Lemma step_quiet (w w' : World) (e : Event) :
  unattended e = true -> is_close e = false ->
  step w e = Some w' ->
  reconnectAttempts (client w') = reconnectAttempts (client w) /\
  maxReconnectAttempts (client w') = maxReconnectAttempts (client w) /\
  reconnectDelay (client w') = reconnectDelay (client w) /\
  reconnect_delays (trace w') = reconnect_delays (trace w) /\
  count is_max_reached (trace w') = count is_max_reached (trace w) /\
  in_flight w' <= in_flight w.
Proof.
  intros Hu Hc H. destruct e as [| |i|i data|i|i|k]; try discriminate.
  - unfold step in H. destruct (sockets w !! i) as [[]|]; try discriminate H.
    injection H as <-. rewrite exec_onmessage. simpl.
    rewrite reconnect_delays_app, count_app.
    destruct (JSON_parse data); simpl; rewrite app_nil_r;
      repeat split; first [reflexivity | lia].
  - unfold step in H. destruct (sockets w !! i) as [[]|]; try discriminate H;
      injection H as <-; rewrite exec_onerror; simpl;
      rewrite reconnect_delays_app, count_app; simpl; rewrite app_nil_r;
      repeat split; first [reflexivity | lia].
  - unfold step in H. destruct (timers w !! k) as [d|] eqn:E; [|discriminate H].
    injection H as <-. rewrite exec_connect. simpl.
    pose proof (length_drop_timer (timers w) k d E) as Hlen.
    destruct (WebSocket_accepts (url (client w))); simpl;
      rewrite reconnect_delays_app, count_app; simpl; rewrite app_nil_r;
      unfold in_flight, live_sockets; simpl;
      repeat split; try reflexivity; try lia.
    rewrite live_new. lia.
Qed.

(** *** The retry loop left to itself *)

Lemma backoff_next (a : nat) :
  Z.min (backoff a * 2) 30000 = backoff (S a).
Proof.
  unfold backoff. rewrite Nat2Z.inj_succ, Z.pow_succ_r by lia.
  pose proof (Z.pow_pos_nonneg 2 (Z.of_nat a)). lia.
Qed.

(** Starting with [a] attempts used and the matching delay, a run without
    opens and API calls schedules the next delays of the backoff sequence
    until five attempts are used, and reports exhaustion once for each
    later close; each such close uses up an attempt in flight. *)
Lemma unattended_run (es : list Event) :
  forall (w w' : World) (a : nat),
    forallb unattended es = true ->
    run w es = Some w' ->
    maxReconnectAttempts (client w) = 5%Z ->
    reconnectAttempts (client w) = Z.of_nat a -> a <= 5 ->
    reconnectDelay (client w) = backoff a ->
    let k := Nat.min (closes es) (5 - a) in
    maxReconnectAttempts (client w') = 5%Z /\
    reconnectAttempts (client w') = Z.of_nat (a + k) /\
    reconnectDelay (client w') = backoff (a + k) /\
    reconnect_delays (trace w') =
      reconnect_delays (trace w) ++ map backoff (seq a k) /\
    count is_max_reached (trace w') =
      count is_max_reached (trace w) + (closes es - k) /\
    in_flight w' + (closes es - k) <= in_flight w.
Proof.
  induction es as [|e es IH]; intros w w' a Hun Hrun Hmax Ha Hle Hd.
  - injection Hrun as <-. simpl. rewrite Nat.add_0_r, app_nil_r.
    repeat split; first [assumption | lia].
  - simpl in Hun. apply andb_true_iff in Hun as [Hu Hun].
    simpl in Hrun. destruct (step w e) as [w1|] eqn:Hs; [|discriminate].
    destruct (is_close e) eqn:Hc.
    + destruct e; try discriminate Hc.
      assert (Hn : closes (sock_close i :: es) = S (closes es))
        by reflexivity.
      rewrite Hn. clear Hn.
      destruct (Z.ltb_spec (reconnectAttempts (client w))
                           (maxReconnectAttempts (client w))) as [Hlt|Hge].
      * destruct (step_close_retry w w1 i Hs Hlt) as (Hcl & _ & Htr & Hfl).
        assert (Ha' : a < 5) by lia.
        specialize (IH w1 w' (S a) Hun Hrun).
        rewrite Hcl in IH. simpl in IH.
        rewrite Hd, backoff_next in IH.
        specialize (IH Hmax ltac:(lia) ltac:(lia) eq_refl).
        destruct IH as (I1 & I2 & I3 & I4 & I5 & I6).
        replace (Nat.min (S (closes es)) (5 - a))
          with (S (Nat.min (closes es) (5 - S a))) by lia.
        rewrite Htr, reconnect_delays_app, count_app in *.
        simpl in *. rewrite Hd in I4.
        rewrite <- app_assoc in I4. simpl in I4.
        replace (a + S (Nat.min (closes es) (4 - a)))
          with (S (a + Nat.min (closes es) (4 - a))) by lia.
        repeat split; first [assumption | lia].
      * destruct (step_close_exhausted w w1 i Hs Hge) as (Hcl & _ & Htr & Hfl).
        assert (Ha' : a = 5) by lia. subst a.
        specialize (IH w1 w' 5 Hun Hrun).
        rewrite Hcl in IH. specialize (IH Hmax Ha Hle Hd).
        destruct IH as (I1 & I2 & I3 & I4 & I5 & I6).
        rewrite Htr, reconnect_delays_app, count_app in *.
        simpl in *. rewrite Nat.min_0_r in *. simpl in *.
        rewrite app_nil_r in I4.
        repeat split; first [assumption | lia].
    + destruct (step_quiet w w1 e Hu Hc Hs) as (Q1 & Q2 & Q3 & Q4 & Q5 & Q6).
      assert (Hn : closes (e :: es) = closes es)
        by (unfold closes; simpl; rewrite Hc; reflexivity).
      rewrite Hn. clear Hn.
      specialize (IH w1 w' a Hun Hrun).
      rewrite Q1, Q2, Q3 in IH. specialize (IH Hmax Ha Hle Hd).
      destruct IH as (I1 & I2 & I3 & I4 & I5 & I6).
      rewrite Q4, Q5 in *.
      repeat split; first [assumption | lia].
Qed.

Lemma in_flight_idle (w : World) : in_flight w = 0 -> idle w.
Proof.
  unfold in_flight, idle. intros H. split; [lia|].
  destruct (timers w); [reflexivity | simpl in H; lia].
Qed.

(** With nothing in flight, only calls of the API can run, and a
    [disconnect()] schedules nothing. *)
Lemma idle_step (w w' : World) (e : Event) :
  idle w -> not_connect e = true -> step w e = Some w' ->
  idle w' /\ reconnect_delays (trace w') = reconnect_delays (trace w).
Proof.
  intros [Hl Ht] Hnc H. unfold live_sockets in Hl.
  destruct e as [| |i|i data|i|i|k]; try discriminate Hnc; unfold step in H.
  - injection H as <-. rewrite exec_disconnect.
    destruct (ws (client w)) as [i|]; [|split; [split; assumption|reflexivity]].
    simpl. rewrite reconnect_delays_app. simpl. rewrite app_nil_r.
    split; [|reflexivity]. split; [|exact Ht].
    unfold live_sockets. simpl.
    destruct (sockets w !! i) as [st|] eqn:E; [|exact Hl].
    assert (st = CLOSED) as -> by exact (no_live_closed _ _ _ Hl E).
    pose proof (live_insert (sockets w) i CLOSED CLOSED E) as Hi.
    cbn [closing is_live] in *. lia.
  - destruct (sockets w !! i) as [st|] eqn:E; [|discriminate H].
    rewrite (no_live_closed _ _ _ Hl E) in H. discriminate H.
  - destruct (sockets w !! i) as [st|] eqn:E; [|discriminate H].
    rewrite (no_live_closed _ _ _ Hl E) in H. discriminate H.
  - destruct (sockets w !! i) as [st|] eqn:E; [|discriminate H].
    rewrite (no_live_closed _ _ _ Hl E) in H. discriminate H.
  - destruct (sockets w !! i) as [st|] eqn:E; [|discriminate H].
    rewrite (no_live_closed _ _ _ Hl E) in H. discriminate H.
  - rewrite Ht in H. discriminate H.
Qed.

Lemma idle_run (es : list Event) (w w' : World) :
  idle w -> forallb not_connect es = true -> run w es = Some w' ->
  idle w' /\ reconnect_delays (trace w') = reconnect_delays (trace w).
Proof.
  revert w. induction es as [|e es IH]; intros w Hi Hnc Hrun.
  - injection Hrun as <-. split; [exact Hi | reflexivity].
  - simpl in Hnc. apply andb_true_iff in Hnc as [He Hnc].
    simpl in Hrun. destruct (step w e) as [w1|] eqn:Hs; [|discriminate].
    destruct (idle_step w w1 e Hi He Hs) as [Hi1 Hd1].
    destruct (IH w1 Hi1 Hnc Hrun) as [Hi' Hd'].
    split; [exact Hi' | congruence].
Qed.

(** No event other than a call of [connect()] adds an attempt in
    flight. *)
Lemma step_in_flight (w w' : World) (e : Event) :
  not_connect e = true -> step w e = Some w' ->
  in_flight w' <= in_flight w.
Proof.
  intros Hnc H.
  destruct e as [| |i|i data|i|i|k]; try discriminate Hnc.
  - unfold step in H. injection H as <-. rewrite exec_disconnect.
    destruct (ws (client w)) as [i|]; [|lia].
    unfold in_flight, live_sockets. simpl.
    destruct (sockets w !! i) as [st|] eqn:E; [|lia].
    pose proof (live_insert (sockets w) i st (closing st) E) as Hi.
    destruct st; cbn [closing is_live] in *; lia.
  - unfold step in H.
    destruct (sockets w !! i) as [[]|] eqn:E; try discriminate H.
    injection H as <-. rewrite exec_onopen.
    unfold in_flight, live_sockets. simpl.
    pose proof (live_insert (sockets w) i CONNECTING OPEN E) as Hi.
    simpl in Hi. lia.
  - apply (step_quiet w w' (sock_message i data)); [reflexivity..|exact H].
  - apply (step_quiet w w' (sock_error i)); [reflexivity..|exact H].
  - destruct (Z.ltb_spec (reconnectAttempts (client w))
                         (maxReconnectAttempts (client w))) as [Hlt|Hge].
    + destruct (step_close_retry w w' i H Hlt) as (_ & _ & _ & Hf). lia.
    + destruct (step_close_exhausted w w' i H Hge) as (_ & _ & _ & Hf). lia.
  - apply (step_quiet w w' (timer_fire k)); [reflexivity..|exact H].
Qed.

(** After a single [connect()] on a new client at most one attempt is
    ever in flight. *)
Lemma one_connect_single_flight (u : string) (es : list Event) (w : World) :
  forallb not_connect es = true ->
  run (boot u) (call_connect :: es) = Some w ->
  in_flight w <= 1.
Proof.
  simpl. intros Hnc.
  assert (H0 : in_flight (exec connect (boot u)) <= 1).
  { rewrite exec_connect. simpl.
    destruct (WebSocket_accepts u); cbv; lia. }
  revert H0. generalize (exec connect (boot u)) as w0.
  induction es as [|e es IH]; intros w0 H0 Hrun.
  - injection Hrun as <-. exact H0.
  - simpl in Hnc. apply andb_true_iff in Hnc as [He Hnc].
    simpl in Hrun. destruct (step w0 e) as [w1|] eqn:Hs; [|discriminate].
    apply (IH Hnc w1); [|exact Hrun].
    pose proof (step_in_flight w0 w1 e He Hs). lia.
Qed.

(** *** What the client guarantees *)

(** C2: when a socket opens, the attempt counter is reset to 0 and the
    delay to 1000 ms.  When a socket closes with fewer than 5 attempts
    used, one reconnect is scheduled after the current delay, the counter
    is incremented and the delay becomes min(2 * delay, 30000).  When it
    closes with the 5 attempts used, [maxReconnectAttemptsReached] is
    emitted and nothing is scheduled; if that socket was the only attempt
    in flight, nothing is scheduled afterwards either, whatever runs, as
    long as [connect()] is not called. *)
Theorem reconnect_backoff (w : World) (i : nat) (st : ReadyState)
    (Hmax : maxReconnectAttempts (client w) = 5%Z)
    (Hi : sockets w !! i = Some st) (Hlive : is_live st = true) :
  (st = CONNECTING ->
   exists w',
     step w (sock_open i) = Some w' /\
     reconnectAttempts (client w') = 0%Z /\
     reconnectDelay (client w') = 1000%Z /\
     timers w' = timers w /\
     trace w' = trace w ++
                  [console_log "WebSocket connected"; emit (connected true)]) /\
  exists w',
    step w (sock_close i) = Some w' /\
    ((reconnectAttempts (client w) < 5)%Z ->
     reconnectAttempts (client w') = (reconnectAttempts (client w) + 1)%Z /\
     timers w' = timers w ++ [reconnectDelay (client w)] /\
     reconnect_delays (trace w') =
       reconnect_delays (trace w) ++ [reconnectDelay (client w)] /\
     reconnectDelay (client w') =
       Z.min (2 * reconnectDelay (client w)) 30000 /\
     count is_max_reached (trace w') = count is_max_reached (trace w)) /\
    ((5 <= reconnectAttempts (client w))%Z ->
     trace w' = trace w ++
                  [console_log "WebSocket disconnected";
                   emit (connected false);
                   console_error "Max reconnection attempts reached";
                   emit (maxReconnectAttemptsReached true)] /\
     timers w' = timers w /\
     client w' = client w /\
     (in_flight w <= 1 ->
      forall (es : list Event) (w'' : World),
        forallb not_connect es = true -> run w' es = Some w'' ->
        reconnect_delays (trace w'') = reconnect_delays (trace w') /\
        idle w'')).
Proof.
  split.
  - intros ->. eexists. unfold step. rewrite Hi. split; [reflexivity|].
    rewrite exec_onopen. repeat split.
  - assert (Hs : step w (sock_close i) =
                 Some (exec onclose (set_socket i CLOSED w))).
    { unfold step. rewrite Hi. destruct st; try reflexivity.
      discriminate Hlive. }
    eexists. split; [exact Hs|]. split.
    + intros Hlt. rewrite <- Hmax in Hlt.
      destruct (step_close_retry _ _ _ Hs Hlt) as (Hc & Ht & Htr & _).
      rewrite Hc, Ht, Htr, reconnect_delays_app, count_app. simpl.
      repeat split; first [reflexivity | lia | f_equal; lia].
    + intros Hge. rewrite <- Hmax in Hge.
      destruct (step_close_exhausted _ _ _ Hs Hge) as (Hc & Ht & Htr & Hfl).
      split; [exact Htr|]. split; [exact Ht|]. split; [exact Hc|].
      intros Hone es w'' Hnc Hrun.
      assert (Hidle : idle (exec onclose (set_socket i CLOSED w)))
        by (apply in_flight_idle; lia).
      destruct (idle_run es _ w'' Hidle Hnc Hrun) as [Hi' Hd].
      split; assumption.
Qed.

(** C3 (as the code has it): after [connect()] on a new client, in any
    run without a successful open and without API calls, the reconnects
    scheduled are the first delays of 1000, 2000, 4000, 8000, 16000, one
    per close and never a sixth; [maxReconnectAttemptsReached] is emitted
    once for each close beyond the fifth, and at most six closes can
    happen.  So after five closes no such event has fired, and after the
    sixth exactly one has, with nothing left in flight. *)
Theorem five_reconnects_then_give_up
    (u : string) (es : list Event) (w : World)
    (Hun : forallb unattended es = true)
    (Hrun : run (boot u) (call_connect :: es) = Some w) :
  let n := closes es in
  reconnect_delays (trace w) = take n [1000; 2000; 4000; 8000; 16000]%Z /\
  count is_max_reached (trace w) = n - 5 /\
  n <= 6 /\
  (n = 5 ->
   count is_max_reached (trace w) = 0 /\
   length (reconnect_delays (trace w)) = 5) /\
  (n = 6 ->
   count is_max_reached (trace w) = 1 /\
   length (reconnect_delays (trace w)) = 5 /\
   idle w).
Proof.
  intros n. simpl in Hrun.
  assert (Hstart : reconnect_delays (trace (exec connect (boot u))) = [] /\
                   count is_max_reached (trace (exec connect (boot u))) = 0 /\
                   in_flight (exec connect (boot u)) <= 1 /\
                   client (exec connect (boot u)) =
                     set_ws (ws (client (exec connect (boot u))))
                            (constructor u)).
  { rewrite exec_connect. simpl.
    destruct (WebSocket_accepts u); repeat split; cbv; lia. }
  destruct Hstart as (Hd0 & Hm0 & Hf0 & Hc0).
  destruct (unattended_run es _ w 0 Hun Hrun) as (_ & _ & _ & Hd & Hm & Hf);
    try (rewrite Hc0; reflexivity); [lia|].
  fold n in Hd, Hm, Hf. rewrite Hd0 in Hd. rewrite Hm0 in Hm.
  simpl in Hd, Hm. rewrite Nat.sub_0_r in *.
  assert (Hn : n <= 6) by lia.
  assert (Hseq : map backoff (seq 0 (Nat.min n 5)) =
                 take n [1000; 2000; 4000; 8000; 16000]%Z).
  { do 6 (destruct n as [|n]; [reflexivity|]). reflexivity. }
  rewrite Hseq in Hd.
  split; [exact Hd|]. split; [lia|]. split; [exact Hn|]. split.
  - intros E. rewrite Hd, E. split; [lia | reflexivity].
  - intros E. rewrite Hd, E. split; [lia|]. split; [reflexivity|].
    apply in_flight_idle. lia.
Qed.

(** C9: a message that [JSON.parse] rejects is logged and nothing is
    emitted; the client fields, the sockets (the connection stays open)
    and the timers are unchanged, and the next messages are handled as
    usual. *)
Theorem malformed_message_is_skipped (w : World) (i : nat) (data : string)
    (Hopen : sockets w !! i = Some OPEN)
    (Hbad : JSON_parse data = None) :
  exists w',
    step w (sock_message i data) = Some w' /\
    trace w' = trace w ++ [console_error "Error parsing WebSocket message:"] /\
    count is_emit (trace w') = count is_emit (trace w) /\
    client w' = client w /\
    sockets w' = sockets w /\
    timers w' = timers w /\
    (forall es : list Event,
       run w (sock_message i data :: es) = run w' es) /\
    (forall (data2 : string) (frame : Data.LandmarkFrame),
       JSON_parse data2 = Some frame ->
       exists w'',
         step w' (sock_message i data2) = Some w'' /\
         trace w'' = trace w' ++ [emit (landmarks frame)]).
Proof.
  assert (Hs : step w (sock_message i data) = Some (exec (onmessage data) w))
    by (unfold step; rewrite Hopen; reflexivity).
  eexists. split; [exact Hs|].
  rewrite exec_onmessage, Hbad. simpl.
  split; [reflexivity|]. split; [rewrite count_app; simpl; lia|].
  split; [reflexivity|]. split; [reflexivity|]. split; [reflexivity|].
  split.
  - intros es. simpl. rewrite Hopen, exec_onmessage, Hbad. reflexivity.
  - intros data2 frame Hok. eexists. unfold step. simpl. rewrite Hopen.
    split; [reflexivity|]. rewrite exec_onmessage, Hok. reflexivity.
Qed.

(** C10: [disconnect()] on an open connection sets the attempt counter to
    the maximum, starts closing the socket and forgets it; the close
    event that follows still runs the close handler, which emits
    [connected(false)] and then [maxReconnectAttemptsReached(true)] and
    schedules no reconnect. *)
Theorem disconnect_reports_exhaustion (w : World) (i : nat)
    (Hws : ws (client w) = Some i)
    (Hopen : sockets w !! i = Some OPEN) :
  exists w1 w2,
    step w call_disconnect = Some w1 /\
    reconnectAttempts (client w1) = maxReconnectAttempts (client w) /\
    ws (client w1) = None /\
    sockets w1 !! i = Some CLOSING /\
    trace w1 = trace w ++ [ws_close i] /\
    step w1 (sock_close i) = Some w2 /\
    trace w2 = trace w1 ++
                 [console_log "WebSocket disconnected";
                  emit (connected false);
                  console_error "Max reconnection attempts reached";
                  emit (maxReconnectAttemptsReached true)] /\
    timers w2 = timers w /\
    reconnect_delays (trace w2) = reconnect_delays (trace w).
Proof.
  assert (Hlt : i < length (sockets w)) by (eapply lookup_lt_Some; eauto).
  assert (H1 : sockets (exec disconnect w) !! i = Some CLOSING).
  { rewrite exec_disconnect, Hws. simpl. rewrite Hopen. simpl.
    apply list_lookup_insert_eq. exact Hlt. }
  assert (Hs : step (exec disconnect w) (sock_close i) =
               Some (exec onclose (set_socket i CLOSED (exec disconnect w))))
    by (unfold step; rewrite H1; reflexivity).
  assert (Hge : (maxReconnectAttempts (client (exec disconnect w)) <=
                 reconnectAttempts (client (exec disconnect w)))%Z)
    by (rewrite exec_disconnect, Hws; simpl; lia).
  destruct (step_close_exhausted _ _ _ Hs Hge) as (_ & Ht & Htr & _).
  exists (exec disconnect w), (exec onclose
            (set_socket i CLOSED (exec disconnect w))).
  split; [reflexivity|].
  split; [rewrite exec_disconnect, Hws; reflexivity|].
  split; [rewrite exec_disconnect, Hws; reflexivity|].
  split; [exact H1|].
  split; [rewrite exec_disconnect, Hws; reflexivity|].
  split; [exact Hs|]. split; [exact Htr|].
  split; [rewrite Ht, exec_disconnect, Hws; reflexivity|].
  rewrite Htr, reconnect_delays_app. simpl.
  rewrite exec_disconnect, Hws. simpl.
  rewrite reconnect_delays_app. simpl. rewrite !app_nil_r. reflexivity.
Qed.

End WithRuntime.
(** *** The guarantees at concrete inputs *)

Lemma reconnect_backoff_witness :
  (exists w',
     step (rt := Examples.sample_runtime) Examples.started (sock_open 0)
       = Some w' /\
     reconnectAttempts (client w') = 0%Z /\
     reconnectDelay (client w') = 1000%Z) /\
  (exists w',
     step (rt := Examples.sample_runtime) Examples.started (sock_close 0)
       = Some w' /\
     timers w' = [1000%Z] /\
     reconnectDelay (client w') = 2000%Z).
Proof.
  destruct (reconnect_backoff (rt := Examples.sample_runtime)
              Examples.started 0 CONNECTING eq_refl eq_refl eq_refl)
    as [Hopen (w2 & Hs2 & Hretry & _)].
  split.
  - destruct (Hopen eq_refl) as (w' & Hs & Ha & Hd & _).
    exists w'. repeat split; assumption.
  - assert (Hlt : (reconnectAttempts (client Examples.started) < 5)%Z)
      by reflexivity.
    destruct (Hretry Hlt) as (_ & Ht & _ & Hd & _).
    exists w2. repeat split; assumption.
Defined.

Lemma five_reconnects_then_give_up_witness :
  exists w,
    run (rt := Examples.sample_runtime) (boot Examples.endpoint)
        (call_connect :: Examples.six_failures) = Some w /\
    count is_max_reached (trace w) = 1 /\
    length (reconnect_delays (trace w)) = 5.
Proof.
  destruct (run (rt := Examples.sample_runtime) (boot Examples.endpoint)
                (call_connect :: Examples.six_failures)) as [w|] eqn:E;
    [|vm_compute in E; discriminate E].
  exists w. split; [reflexivity|].
  destruct (five_reconnects_then_give_up (rt := Examples.sample_runtime)
              Examples.endpoint Examples.six_failures w eq_refl E)
    as (_ & _ & _ & _ & H6).
  destruct (H6 eq_refl) as (Hm & Hl & _).
  split; assumption.
Defined.

(** C3 as stated fails: after five closes in a row without an open, no
    [maxReconnectAttemptsReached] has been emitted (the fifth reconnect is
    still pending). *)
Lemma five_closes_no_max_event :
  exists w,
    run (rt := Examples.sample_runtime) (boot Examples.endpoint)
        (call_connect :: Examples.five_failures) = Some w /\
    forallb unattended Examples.five_failures = true /\
    closes Examples.five_failures = 5 /\
    count is_max_reached (trace w) <> 1 /\
    timers w = [16000%Z].
Proof.
  eexists. split; [vm_compute; reflexivity|].
  repeat split; vm_compute; congruence.
Qed.

Lemma malformed_message_is_skipped_witness :
  exists w',
    step (rt := Examples.sample_runtime) Examples.connected_world
         (sock_message 0 "not json") = Some w' /\
    count is_emit (trace w') = count is_emit (trace Examples.connected_world) /\
    sockets w' = [OPEN].
Proof.
  destruct (malformed_message_is_skipped (rt := Examples.sample_runtime)
              Examples.connected_world 0 "not json" eq_refl eq_refl)
    as (w' & Hs & _ & He & _ & Hso & _).
  exists w'. split; [exact Hs|]. split; [exact He | exact Hso].
Defined.

Lemma disconnect_reports_exhaustion_witness :
  exists w1 w2,
    step (rt := Examples.sample_runtime) Examples.connected_world
         call_disconnect = Some w1 /\
    step (rt := Examples.sample_runtime) w1 (sock_close 0) = Some w2 /\
    trace w2 = trace w1 ++
                 [console_log "WebSocket disconnected";
                  emit (connected false);
                  console_error "Max reconnection attempts reached";
                  emit (maxReconnectAttemptsReached true)] /\
    timers w2 = [].
Proof.
  destruct (disconnect_reports_exhaustion (rt := Examples.sample_runtime)
              Examples.connected_world 0 eq_refl eq_refl)
    as (w1 & w2 & H1 & _ & _ & _ & _ & H2 & Htr & Ht & _).
  exists w1, w2. repeat split; assumption.
Defined.

End ClientProps.

(** ** The listener registry *)
Module RegistryProps.
Import Listeners.

Lemma occurrences_app (cb : nat) (l1 l2 : list nat) :
  occurrences cb (l1 ++ l2) = occurrences cb l1 + occurrences cb l2.
Proof. unfold occurrences. rewrite List.filter_app, length_app. reflexivity. Qed.

Lemma occurrences_removed (cb cb' : nat) (l : list nat) :
  occurrences cb (List.filter (fun c => negb (Nat.eqb c cb')) l) =
  if Nat.eqb cb' cb then 0 else occurrences cb l.
Proof.
  unfold occurrences. induction l as [|c l IH]; simpl.
  - destruct (Nat.eqb cb' cb); reflexivity.
  - destruct (Nat.eqb_spec c cb') as [->|Hne]; simpl.
    + rewrite IH. destruct (Nat.eqb_spec cb' cb) as [->|Hne']; [reflexivity|].
      destruct (Nat.eqb_spec cb cb'); [congruence | reflexivity].
    + destruct (Nat.eqb_spec cb c) as [->|Hne'']; simpl; rewrite IH.
      * destruct (Nat.eqb_spec cb' c); [congruence | reflexivity].
      * reflexivity.
Qed.

Section Registry.
Variable inherited : string -> bool.

(** Under a name that is not inherited there is an array or nothing. *)
Lemma slot_own (listeners : gmap string (list nat)) (event : string) :
  inherited event = false ->
  slot inherited listeners event =
  match listeners !! event with Some cbs => array cbs | None => undefined end.
Proof. intros H. unfold slot. rewrite H. reflexivity. Qed.

(** Under an inherited name a registry built by [on] has the inherited
    value. *)
Lemma slot_inherited (listeners : gmap string (list nat)) (event : string) :
  clean inherited listeners -> inherited event = true ->
  slot inherited listeners event = inherited_value.
Proof. intros Hc H. unfold slot. rewrite (Hc _ H), H. reflexivity. Qed.

Lemma clean_perform (listeners : gmap string (list nat)) (c : Call) :
  clean inherited listeners -> clean inherited (perform inherited listeners c).
Proof.
  intros Hc. destruct c as [e cb|e cb]; simpl; unfold on, off.
  - destruct (inherited e) eqn:Ei.
    + rewrite (slot_inherited _ _ Hc Ei). exact Hc.
    + rewrite (slot_own _ _ Ei).
      destruct (listeners !! e); simpl; intros ev Hev;
        (rewrite lookup_insert_ne by congruence); apply Hc, Hev.
  - destruct (inherited e) eqn:Ei.
    + rewrite (slot_inherited _ _ Hc Ei). exact Hc.
    + rewrite (slot_own _ _ Ei).
      destruct (listeners !! e); simpl; [|exact Hc]. intros ev Hev.
      rewrite lookup_insert_ne by congruence. apply Hc, Hev.
Qed.

Lemma clean_perform_all (cs : list Call) :
  forall listeners : gmap string (list nat),
    clean inherited listeners -> clean inherited (perform_all inherited listeners cs).
Proof.
  induction cs as [|c cs IH]; intros listeners Hc; [exact Hc|].
  simpl. apply IH, clean_perform, Hc.
Qed.

Lemma clean_empty : clean inherited ∅.
Proof. intros ev _. apply lookup_empty. Qed.

(** One registration or removal moves the count of a callback for an event
    as [tally] says. *)
Lemma occurrences_perform (event : string) (cb : nat)
    (listeners : gmap string (list nat)) (c : Call) :
  clean inherited listeners -> inherited event = false ->
  occurrences cb (registered (perform inherited listeners c) event) =
  tally event cb (occurrences cb (registered listeners event)) c.
Proof.
  intros Hc Hev. unfold registered.
  destruct c as [e cb'|e cb']; simpl; unfold on, off.
  - destruct (String.eqb_spec e event) as [->|Hne]; simpl.
    + rewrite (slot_own _ _ Hev).
      destruct (listeners !! event) as [cbs|] eqn:E; simpl;
        rewrite lookup_insert_eq;
        simpl; [rewrite occurrences_app|]; unfold occurrences; simpl;
        rewrite (Nat.eqb_sym cb cb'); destruct (Nat.eqb cb' cb); simpl; lia.
    + destruct (slot inherited listeners e); simpl;
        [rewrite lookup_insert_ne by exact Hne| |rewrite lookup_insert_ne by exact Hne];
        reflexivity.
  - destruct (String.eqb_spec e event) as [->|Hne]; simpl.
    + rewrite (slot_own _ _ Hev).
      destruct (listeners !! event) as [cbs|] eqn:E; simpl.
      * rewrite lookup_insert_eq. simpl. apply occurrences_removed.
      * rewrite E. simpl. destruct (Nat.eqb cb' cb); reflexivity.
    + destruct (slot inherited listeners e); simpl;
        [rewrite lookup_insert_ne by exact Hne| |]; reflexivity.
Qed.

Lemma occurrences_perform_all (event : string) (cb : nat) (cs : list Call) :
  inherited event = false ->
  forall listeners : gmap string (list nat),
    clean inherited listeners ->
    occurrences cb (registered (perform_all inherited listeners cs) event) =
    fold_left (tally event cb) cs (occurrences cb (registered listeners event)).
Proof.
  intros Hev. induction cs as [|c cs IH]; intros listeners Hc; [reflexivity|].
  simpl. rewrite IH by (apply clean_perform, Hc).
  rewrite occurrences_perform by assumption. reflexivity.
Qed.

Lemma calls_flat (event : string) (throws : nat -> bool) (cbs : list nat) :
  calls (flat_map (fun cb => if throws cb then [called cb; listener_error event]
                             else [called cb]) cbs) = cbs.
Proof.
  induction cbs as [|cb cbs IH]; [reflexivity|].
  simpl. destruct (throws cb); simpl; rewrite IH; reflexivity.
Qed.

Lemma errors_flat (event : string) (throws : nat -> bool) (cbs : list nat) :
  errors (flat_map (fun cb => if throws cb then [called cb; listener_error event]
                              else [called cb]) cbs) =
  length (List.filter throws cbs).
Proof.
  induction cbs as [|cb cbs IH]; [reflexivity|].
  simpl. destruct (throws cb); simpl; rewrite IH; reflexivity.
Qed.

(** Without an inherited value in the way, [emit] returns, having called
    the stored array in order. *)
Lemma emit_own (throws : nat -> bool) (listeners : gmap string (list nat))
    (event : string) :
  slot inherited listeners event <> inherited_value ->
  exists os, emit inherited throws listeners event = Some os /\
             calls os = registered listeners event /\
             errors os = length (List.filter throws (registered listeners event)).
Proof.
  intros Hs. unfold emit, registered. unfold slot in *.
  destruct (listeners !! event) as [cbs|]; simpl.
  - eexists. split; [reflexivity|]. split; [apply calls_flat | apply errors_flat].
  - destruct (inherited event); [congruence|].
    exists []. repeat split.
Qed.

(** X1: the registry is the object literal [{}].  For an event name it
    does not inherit from [Object.prototype], whatever was registered and
    removed before, [emit(event)] returns and calls a callback once for
    every [on(event, callback)] made since the last [off(event, callback)]:
    a callback registered twice is called twice, and one [off] removes all
    its registrations for that event and no others.  For a name it does
    inherit, [on], [off] and [emit] all throw a [TypeError]. *)
Theorem emit_calls_registrations_in_force
    (throws : nat -> bool) (cs : list Call) (event : string) (callback : nat) :
  let listeners := perform_all inherited ∅ cs in
  (inherited event = false ->
   exists os, emit inherited throws listeners event = Some os /\
              occurrences callback (calls os) = registrations event callback cs) /\
  (inherited event = true ->
   emit inherited throws listeners event = None /\
   on inherited event callback listeners = None /\
   off inherited event callback listeners = None).
Proof.
  intros listeners.
  assert (Hc : clean inherited listeners)
    by (apply clean_perform_all, clean_empty).
  split; intros Hev.
  - destruct (emit_own throws listeners event) as (os & Hos & Hcalls & _).
    { rewrite (slot_own _ _ Hev). destruct (listeners !! event); discriminate. }
    exists os. split; [exact Hos|].
    rewrite Hcalls. unfold listeners.
    rewrite (occurrences_perform_all _ _ _ Hev _ clean_empty). reflexivity.
  - unfold emit, on, off. rewrite (slot_inherited _ _ Hc Hev). repeat split.
Qed.

(** X2: when [this.listeners[event]] is an array or undefined, [emit]
    returns, having called the listeners of the event in the order they
    were registered; a listener that throws costs one logged error but does
    not keep the later listeners from being called; [on] appends; with no
    listener for the event nothing happens.  When it is a value inherited
    from [Object.prototype], [emit] throws. *)
Theorem emit_survives_throwing_listener
    (throws : nat -> bool) (listeners : gmap string (list nat))
    (event : string) (callback : nat) :
  let before := registered listeners event in
  (slot inherited listeners event <> inherited_value ->
   (exists listeners' os',
      on inherited event callback listeners = Some listeners' /\
      emit inherited throws listeners' event = Some os' /\
      calls os' = before ++ [callback]) /\
   (exists os,
      emit inherited throws listeners event = Some os /\
      calls os = before /\
      errors os = length (List.filter throws before))) /\
  (slot inherited listeners event = undefined ->
   emit inherited throws listeners event = Some []) /\
  (slot inherited listeners event = inherited_value ->
   emit inherited throws listeners event = None).
Proof.
  intros before. split; [|split].
  - intros Hs. split; [|apply emit_own, Hs].
    unfold on, before, registered. unfold slot in Hs |- *.
    destruct (listeners !! event) as [cbs|] eqn:E.
    + eexists. eexists. split; [reflexivity|].
      unfold emit, slot. rewrite lookup_insert_eq.
      split; [reflexivity|]. apply calls_flat.
    + destruct (inherited event); [congruence|].
      eexists. eexists. split; [reflexivity|].
      unfold emit, slot. rewrite lookup_insert_eq.
      split; [reflexivity|]. apply (calls_flat event throws [callback]).
  - intros H. unfold emit. rewrite H. reflexivity.
  - intros H. unfold emit. rewrite H. reflexivity.
Qed.

End Registry.

Lemma emit_calls_registrations_in_force_witness :
  (exists os,
     emit standard_inherited (fun _ => false)
       (perform_all standard_inherited ∅
          [call_on "landmarks" 1; call_on "landmarks" 1; call_on "landmarks" 2;
           call_off "landmarks" 2; call_on "toString" 3]) "landmarks" = Some os /\
     occurrences 1 (calls os) = 2) /\
  emit standard_inherited (fun _ => false)
    (perform_all standard_inherited ∅ [call_on "toString" 3]) "toString" = None.
Proof.
  split.
  - apply (emit_calls_registrations_in_force standard_inherited (fun _ => false)
             [call_on "landmarks" 1; call_on "landmarks" 1; call_on "landmarks" 2;
              call_off "landmarks" 2; call_on "toString" 3] "landmarks" 1).
    reflexivity.
  - apply (emit_calls_registrations_in_force standard_inherited (fun _ => false)
             [call_on "toString" 3] "toString" 3).
    reflexivity.
Defined.

Lemma emit_survives_throwing_listener_witness :
  exists os,
    emit standard_inherited (Nat.eqb 1) {[ "landmarks" := [1; 2] ]} "landmarks"
    = Some os /\
    calls os = [1; 2] /\ errors os = 1.
Proof.
  destruct (emit_survives_throwing_listener standard_inherited (Nat.eqb 1)
              {[ "landmarks" := [1; 2] ]} "landmarks" 0) as [H _].
  destruct H as [_ H]; [vm_compute; discriminate|].
  exact H.
Defined.

End RegistryProps.

(** ** More about the client: invariants, [disconnect()], repeated [connect()] *)
Module ClientMoreProps.
Import LandmarkWebSocket Bookkeeping.
Import ClientProps.

Lemma backoff_ladder (a : nat) : a < 5 -> In (backoff a) ladder.
Proof.
  intros H. do 5 (destruct a as [|a]; [cbv; tauto|]). lia.
Qed.

Lemma backoff_range (k : nat) : (1000 <= backoff k <= 30000)%Z.
Proof.
  unfold backoff. pose proof (Z.pow_pos_nonneg 2 (Z.of_nat k)) as H.
  assert (1 <= 2 ^ Z.of_nat k)%Z by lia. lia.
Qed.

Lemma delays_unchanged (t l : list Effect) :
  reconnect_delays l = [] -> reconnect_delays (t ++ l) = reconnect_delays t.
Proof. intros H. rewrite reconnect_delays_app, H, app_nil_r. reflexivity. Qed.

Section WithRuntime.
Context {rt : Runtime}.

(** Every turn of the event loop keeps the bookkeeping sound. *)
Lemma sound_step (u : string) (w w' : World) (e : Event) :
  sound u w -> step w e = Some w' -> sound u w'.
Proof.
  intros (Hu & Hmax & (a & k & Ha & Hle & Hd & Hk & Hak) & Ht & Hr) H.
  unfold sound.
  destruct e as [| |i|i data|i|i|j]; unfold step in H.
  - injection H as <-. rewrite exec_connect.
    destruct (WebSocket_accepts (url (client w))); simpl;
      (split; [exact Hu|]; split; [exact Hmax|];
       split; [exists a, k; repeat split; assumption|];
       split; [exact Ht|]; rewrite delays_unchanged by reflexivity; exact Hr).
  - injection H as <-. rewrite exec_disconnect.
    destruct (ws (client w)) as [i|];
      [|repeat split; try assumption; exists a, k; repeat split; assumption].
    simpl. split; [exact Hu|]. split; [exact Hmax|].
    split; [exists 5, k; rewrite Hmax; repeat split; first [assumption|lia]|].
    split; [exact Ht|]. rewrite delays_unchanged by reflexivity. exact Hr.
  - destruct (sockets w !! i) as [[]|]; try discriminate H.
    injection H as <-. rewrite exec_onopen. simpl.
    split; [exact Hu|]. split; [exact Hmax|].
    split; [exists 0, 0; repeat split; lia|].
    split; [exact Ht|]. rewrite delays_unchanged by reflexivity. exact Hr.
  - destruct (sockets w !! i) as [[]|]; try discriminate H.
    injection H as <-. rewrite exec_onmessage. simpl.
    split; [exact Hu|]. split; [exact Hmax|].
    split; [exists a, k; repeat split; assumption|].
    split; [exact Ht|].
    rewrite delays_unchanged by (destruct (JSON_parse data); reflexivity).
    exact Hr.
  - destruct (sockets w !! i) as [[]|]; try discriminate H;
      injection H as <-; rewrite exec_onerror; simpl;
      (split; [exact Hu|]; split; [exact Hmax|];
       split; [exists a, k; repeat split; assumption|];
       split; [exact Ht|]; rewrite delays_unchanged by reflexivity; exact Hr).
  - assert (Hs : step w (sock_close i) = Some w') by exact H. clear H.
    destruct (Z.ltb_spec (reconnectAttempts (client w))
                         (maxReconnectAttempts (client w))) as [Hlt|Hge].
    + destruct (step_close_retry w w' i Hs Hlt) as (Hc & Hti & Htr & _).
      assert (Ha5 : a < 5) by lia. specialize (Hak Ha5). subst k.
      rewrite Hc, Hti, Htr. simpl.
      split; [exact Hu|]. split; [exact Hmax|].
      split.
      { exists (S a), (S a). rewrite Ha, Hd, backoff_next.
        repeat split; lia. }
      rewrite reconnect_delays_app. simpl. rewrite Hd.
      split; apply Forall_app; (split; [assumption|]);
        apply Forall_cons; (split; [apply backoff_ladder; exact Ha5 | constructor]).
    + destruct (step_close_exhausted w w' i Hs Hge) as (Hc & Hti & Htr & _).
      rewrite Hc, Hti, Htr.
      split; [exact Hu|]. split; [exact Hmax|].
      split; [exists a, k; repeat split; assumption|].
      split; [exact Ht|]. rewrite delays_unchanged by reflexivity. exact Hr.
  - destruct (timers w !! j) as [d|]; [|discriminate H].
    injection H as <-. rewrite exec_connect. simpl.
    assert (Ht' : Forall (fun d => In d ladder)
                         (take j (timers w) ++ drop (S j) (timers w))).
    { apply Forall_app. split; [apply Forall_take | apply Forall_drop]; exact Ht. }
    destruct (WebSocket_accepts (url (client w))); simpl;
      (split; [exact Hu|]; split; [exact Hmax|];
       split; [exists a, k; repeat split; assumption|];
       split; [exact Ht'|]; rewrite delays_unchanged by reflexivity; exact Hr).
Qed.

Lemma sound_boot (u : string) : sound u (boot u).
Proof.
  repeat split; try constructor.
  exists 0, 0. repeat split; lia.
Qed.

Lemma sound_run (u : string) (es : list Event) :
  forall w w' : World, sound u w -> run w es = Some w' -> sound u w'.
Proof.
  induction es as [|e es IH]; intros w w' Hs Hrun.
  - injection Hrun as <-. exact Hs.
  - simpl in Hrun. destruct (step w e) as [w1|] eqn:E; [|discriminate].
    exact (IH w1 w' (sound_step u w w1 e Hs E) Hrun).
Qed.

(** X3: in every state the client can reach from [new LandmarkWebSocket(url)],
    whatever the application calls and the network does, the attempt counter
    stays within 0..5 and the stored delay within 1000..30000 ms, and every
    reconnect ever scheduled, pending or past, was given one of the delays
    1000, 2000, 4000, 8000 or 16000 ms: the 30000 ms cap is never used as a
    delay. *)
Theorem reconnects_use_ladder_delays (u : string) (es : list Event) (w : World)
    (Hrun : run (boot u) es = Some w) :
  (0 <= reconnectAttempts (client w) <= 5)%Z /\
  (1000 <= reconnectDelay (client w) <= 30000)%Z /\
  maxReconnectAttempts (client w) = 5%Z /\
  url (client w) = u /\
  Forall (fun d => In d [1000; 2000; 4000; 8000; 16000]%Z) (timers w) /\
  Forall (fun d => In d [1000; 2000; 4000; 8000; 16000]%Z)
         (reconnect_delays (trace w)).
Proof.
  destruct (sound_run u es _ w (sound_boot u) Hrun)
    as (Hu & Hmax & (a & k & Ha & Hle & Hd & Hk & _) & Ht & Hr).
  pose proof (backoff_range k).
  repeat split; first [assumption | lia].
Qed.

(** X4: [disconnect()] is idempotent: a second call right after the first
    changes nothing and logs nothing, and on a client that never connected
    it is a no-op. *)
Theorem disconnect_twice (w w1 : World)
    (H1 : step w call_disconnect = Some w1) :
  step w1 call_disconnect = Some w1 /\
  (ws (client w) = None -> w1 = w).
Proof.
  unfold step in *. injection H1 as <-. split.
  - f_equal. rewrite (exec_disconnect (exec disconnect w)).
    rewrite exec_disconnect. destruct (ws (client w)) as [i|] eqn:E.
    + reflexivity.
    + rewrite E. reflexivity.
  - intros E. rewrite exec_disconnect, E. reflexivity.
Qed.

(** X5: [disconnect()] does not cancel a reconnect that is already
    scheduled.  If a timer is pending when it is called, the timer still
    fires and calls [connect()], which creates a new socket; when that
    socket opens, the counter is back at 0 and the client reports itself
    connected, although [disconnect()] was the last call made. *)
Theorem pending_reconnect_survives_disconnect
    (w : World) (k : nat) (d : Z)
    (Ht : timers w !! k = Some d)
    (Hurl : WebSocket_accepts (url (client w)) = true) :
  exists w1 w2 w3,
    step w call_disconnect = Some w1 /\
    timers w1 = timers w /\
    step w1 (timer_fire k) = Some w2 /\
    ws (client w2) = Some (length (sockets w1)) /\
    step w2 (sock_open (length (sockets w1))) = Some w3 /\
    reconnectAttempts (client w3) = 0%Z /\
    isConnected w3 = true /\
    trace w3 = trace w2 ++
                 [console_log "WebSocket connected"; emit (connected true)].
Proof.
  set (w1 := exec disconnect w).
  assert (Ht1 : timers w1 = timers w).
  { unfold w1. rewrite exec_disconnect. destruct (ws (client w)); reflexivity. }
  assert (Hu1 : url (client w1) = url (client w)).
  { unfold w1. rewrite exec_disconnect. destruct (ws (client w)); reflexivity. }
  set (w2 := exec connect (drop_timer k w1)).
  assert (E2 : w2 =
    {| client := set_ws (Some (length (sockets w1))) (client w1);
       sockets := sockets w1 ++ [CONNECTING];
       timers := take k (timers w1) ++ drop (S k) (timers w1);
       trace := trace w1 ++
                  [new_WebSocket (url (client w1)) (length (sockets w1))] |}).
  { unfold w2. rewrite exec_connect. simpl. rewrite Hu1, Hurl. reflexivity. }
  assert (Hl : sockets w2 !! length (sockets w1) = Some CONNECTING).
  { rewrite E2. simpl. rewrite lookup_app_r by lia.
    rewrite Nat.sub_diag. reflexivity. }
  exists w1, w2, (exec onopen (set_socket (length (sockets w1)) OPEN w2)).
  split; [reflexivity|]. split; [exact Ht1|].
  split; [unfold step; rewrite Ht1, Ht; reflexivity|].
  split; [rewrite E2; reflexivity|].
  split; [unfold step; rewrite Hl; reflexivity|].
  rewrite exec_onopen. simpl.
  split; [reflexivity|]. split; [|reflexivity].
  unfold isConnected. simpl. rewrite E2. simpl.
  rewrite list_lookup_insert_eq; [reflexivity|].
  rewrite length_app. simpl. lia.
Qed.

(** X6: [connect()] does not close the connection it replaces.  Called
    while a socket is open, it leaves that socket open and attached to the
    same handlers, so its messages are still emitted, while the client now
    tracks the new socket and reports itself not connected. *)
Theorem connect_keeps_previous_socket
    (w : World) (i : nat) (data : string) (frame : Data.LandmarkFrame)
    (Hws : ws (client w) = Some i)
    (Hopen : sockets w !! i = Some OPEN)
    (Hurl : WebSocket_accepts (url (client w)) = true)
    (Hparse : JSON_parse data = Some frame) :
  exists w1 w2,
    step w call_connect = Some w1 /\
    isConnected w = true /\
    isConnected w1 = false /\
    ws (client w1) = Some (length (sockets w)) /\
    sockets w1 !! i = Some OPEN /\
    in_flight w1 = S (in_flight w) /\
    step w1 (sock_message i data) = Some w2 /\
    trace w2 = trace w1 ++ [emit (landmarks frame)].
Proof.
  assert (Hlt : i < length (sockets w)) by (eapply lookup_lt_Some; eauto).
  assert (E1 : exec connect w =
    {| client := set_ws (Some (length (sockets w))) (client w);
       sockets := sockets w ++ [CONNECTING];
       timers := timers w;
       trace := trace w ++
                  [new_WebSocket (url (client w)) (length (sockets w))] |}).
  { rewrite exec_connect, Hurl. reflexivity. }
  assert (Hi1 : sockets (exec connect w) !! i = Some OPEN).
  { rewrite E1. simpl. rewrite lookup_app_l by exact Hlt. exact Hopen. }
  exists (exec connect w), (exec (onmessage data) (exec connect w)).
  split; [reflexivity|].
  split; [unfold isConnected; rewrite Hws, Hopen; reflexivity|].
  split.
  { unfold isConnected. rewrite E1. simpl.
    rewrite lookup_app_r by lia. rewrite Nat.sub_diag. reflexivity. }
  split; [rewrite E1; reflexivity|].
  split; [exact Hi1|].
  split.
  { rewrite E1. unfold in_flight, live_sockets. simpl. rewrite live_new. lia. }
  split; [unfold step; rewrite Hi1; reflexivity|].
  rewrite exec_onmessage, Hparse. reflexivity.
Qed.

Lemma emitted_app (t u : list Effect) :
  System.emitted (t ++ u) = System.emitted t ++ System.emitted u.
Proof.
  induction t as [|e t IH]; simpl; [reflexivity|].
  destruct e; simpl; rewrite ?IH; reflexivity.
Qed.

(** With a URL the constructor rejects nothing ever gets going. *)
Lemma rejected_url_run (u : string) (es : list Event) :
  WebSocket_accepts u = false ->
  forall w w' : World,
    url (client w) = u -> ws (client w) = None ->
    sockets w = [] -> timers w = [] ->
    run w es = Some w' ->
    client w' = client w /\ sockets w' = [] /\ timers w' = [] /\
    System.emitted (trace w') =
      System.emitted (trace w) ++
      repeat error (length (List.filter is_connect es)) /\
    reconnect_delays (trace w') = reconnect_delays (trace w).
Proof.
  intros Hbad. induction es as [|e es IH]; intros w w' Hu Hws Hs Ht Hrun.
  - injection Hrun as <-. simpl. rewrite app_nil_r. repeat split; assumption.
  - simpl in Hrun. destruct (step w e) as [w1|] eqn:E; [|discriminate].
    destruct e as [| |i|i data|i|i|j]; unfold step in E;
      try (rewrite Hs in E; discriminate E);
      try (rewrite Ht in E; discriminate E).
    + injection E as <-. rewrite exec_connect, Hu, Hbad in Hrun.
      eapply IH in Hrun as (I1 & I2 & I3 & I4 & I5); try assumption.
      simpl in *. rewrite emitted_app in I4. simpl in I4.
      rewrite <- app_assoc in I4. simpl in I4.
      rewrite delays_unchanged in I5 by reflexivity.
      repeat split; assumption.
    + injection E as <-. rewrite exec_disconnect, Hws in Hrun.
      exact (IH w w' Hu Hws Hs Ht Hrun).
Qed.

(** X7: if [new WebSocket(url)] rejects the URL, every [connect()] emits
    one [error] and that is all the client ever does: no socket exists, no
    reconnect is scheduled, and neither [connected] nor
    [maxReconnectAttemptsReached] is ever emitted. *)
Theorem rejected_url_only_errors (u : string) (es : list Event) (w : World)
    (Hbad : WebSocket_accepts u = false)
    (Hrun : run (boot u) es = Some w) :
  System.emitted (trace w) = repeat error (length (List.filter is_connect es)) /\
  reconnect_delays (trace w) = [] /\
  sockets w = [] /\ timers w = [] /\
  client w = constructor u /\
  forallb (fun e => match e with
                    | call_connect | call_disconnect => true
                    | _ => false
                    end) es = true.
Proof.
  destruct (rejected_url_run u es Hbad (boot u) w eq_refl eq_refl eq_refl
              eq_refl Hrun) as (H1 & H2 & H3 & H4 & H5).
  repeat split; try assumption.
  clear H1 H2 H3 H4 H5. revert Hrun.
  assert (G : forall w0 : World,
             url (client w0) = u -> ws (client w0) = None ->
             sockets w0 = [] -> timers w0 = [] ->
             run w0 es = Some w ->
             forallb (fun e => match e with
                               | call_connect | call_disconnect => true
                               | _ => false
                               end) es = true).
  { induction es as [|e es IH]; intros w0 Hu Hws Hs Ht Hrun; [reflexivity|].
    simpl in Hrun. destruct (step w0 e) as [w1|] eqn:E; [|discriminate].
    destruct e as [| |i|i data|i|i|j]; unfold step in E;
      try (rewrite Hs in E; discriminate E);
      try (rewrite Ht in E; discriminate E); simpl.
    - injection E as <-. rewrite exec_connect, Hu, Hbad in Hrun.
      eapply IH in Hrun; assumption.
    - injection E as <-. rewrite exec_disconnect, Hws in Hrun.
      exact (IH _ Hu Hws Hs Ht Hrun). }
  intros Hrun. exact (G (boot u) eq_refl eq_refl eq_refl eq_refl Hrun).
Qed.

Lemma ladder_prefix (n : nat) :
  map backoff (seq 0 (Nat.min n 5)) = take n ladder.
Proof. do 6 (destruct n as [|n]; [reflexivity|]). reflexivity. Qed.

(** X8: a successful open gives the retry loop its full budget back.  After
    any socket opens, the following closes without a further open schedule
    reconnects with delays 1000, 2000, 4000, 8000, 16000 again, whatever
    the counter and the delay were before, and
    [maxReconnectAttemptsReached] is emitted only from the sixth close on. *)
Theorem backoff_restarts_after_open
    (w w' : World) (i : nat) (es : list Event)
    (Hmax : maxReconnectAttempts (client w) = 5%Z)
    (Hi : sockets w !! i = Some CONNECTING)
    (Hun : forallb unattended es = true)
    (Hrun : run w (sock_open i :: es) = Some w') :
  reconnect_delays (trace w') =
    reconnect_delays (trace w) ++ take (closes es) ladder /\
  count is_max_reached (trace w') =
    count is_max_reached (trace w) + (closes es - 5).
Proof.
  simpl in Hrun. rewrite Hi in Hrun.
  destruct (unattended_run es _ w' 0 Hun Hrun) as (_ & _ & _ & Hd & Hm & _);
    try (rewrite exec_onopen; simpl; first [assumption | reflexivity]); [lia|].
  rewrite exec_onopen in Hd, Hm. simpl in Hd, Hm.
  rewrite reconnect_delays_app, count_app in *. simpl in *.
  rewrite app_nil_r, ladder_prefix in Hd.
  split; [exact Hd|]. lia.
Qed.

End WithRuntime.
End ClientMoreProps.

(** ** The client and [App] together *)
Module SystemProps.
Import LandmarkWebSocket.
Import ClientProps.

Section WithRuntime.
Context {rt : Runtime}.

(** A turn of the client whose new effects are [l] runs the listeners of
    [App] on the emissions among [l]. *)
Lemma system_step (w w' : World) (p : Page.State) (e : Event) (l : list Effect) :
  LandmarkWebSocket.step w e = Some w' ->
  trace w' = trace w ++ l ->
  System.step {| System.world := w; System.page := p |} e =
    Some {| System.world := w';
            System.page := System.deliver_all p (System.emitted l) |}.
Proof.
  intros Hs Ht. unfold System.step. simpl. rewrite Hs, Ht, drop_app_length.
  reflexivity.
Qed.

Lemma system_run_world (es : list Event) :
  forall s s' : System.State,
    System.run s es = Some s' ->
    LandmarkWebSocket.run (System.world s) es = Some (System.world s').
Proof.
  induction es as [|e es IH]; intros s s' H.
  - injection H as <-. reflexivity.
  - simpl in *. unfold System.step in H.
    destruct (LandmarkWebSocket.step (System.world s) e) as [w1|]; [|discriminate].
    apply IH in H. exact H.
Qed.

Lemma no_open_after_close (l : list ReadyState) (i j : nat) :
  (forall k, l !! k <> Some OPEN) -> <[i := CLOSED]> l !! j <> Some OPEN.
Proof.
  intros H E. apply list_lookup_insert_Some in E as [(_ & E & _) | (_ & E)].
  - discriminate E.
  - exact (H j E).
Qed.

Lemma no_open_after_new (l : list ReadyState) (j : nat) :
  (forall k, l !! k <> Some OPEN) -> (l ++ [CONNECTING]) !! j <> Some OPEN.
Proof.
  intros H E. apply lookup_app_Some in E as [E | (_ & E)].
  - exact (H j E).
  - destruct (j - length l) as [|n]; simpl in E; discriminate E.
Qed.

(** An unattended turn keeps the page in step with the retry loop. *)
Lemma retrying_step (s s' : System.State) (e : Event) :
  System.retrying s -> unattended e = true ->
  System.step s e = Some s' -> System.retrying s'.
Proof.
  destruct s as [w p]. intros (Hno & Hc & Ho & Hb) Hu H.
  unfold System.retrying in *. simpl in *.
  destruct e as [| |i|i data|i|i|k]; try discriminate Hu.
  - unfold System.step, LandmarkWebSocket.step in H. simpl in H.
    destruct (sockets w !! i) as [[]|] eqn:E; try discriminate H.
    exfalso. exact (Hno i E).
  - assert (Hs : LandmarkWebSocket.step w (sock_error i) = Some (exec onerror w)).
    { unfold System.step, LandmarkWebSocket.step in *. simpl in H.
      destruct (sockets w !! i) as [[]|]; try discriminate H; reflexivity. }
    erewrite system_step in H; [|exact Hs | rewrite exec_onerror; reflexivity].
    injection H as <-. cbn [System.world System.page]. rewrite exec_onerror. simpl.
    rewrite count_app. simpl. rewrite Nat.add_0_r.
    repeat split; assumption.
  - destruct (LandmarkWebSocket.step w (sock_close i)) as [w1|] eqn:Hs;
      [|unfold System.step in H; cbn [System.world System.page] in H;
        rewrite Hs in H; discriminate H].
    destruct (step_close w w1 i Hs) as (st & Hi & Hl & Hw1).
    assert (Hno1 : forall j, sockets w1 !! j <> Some OPEN).
    { intros j. rewrite Hw1, exec_onclose. simpl.
      destruct (reconnectAttempts (client w) <? maxReconnectAttempts (client w))%Z;
        simpl; apply no_open_after_close; exact Hno. }
    destruct (Z.ltb_spec (reconnectAttempts (client w))
                         (maxReconnectAttempts (client w))) as [Hlt|Hge].
    + destruct (step_close_retry w w1 i Hs Hlt) as (_ & _ & Htr & _).
      erewrite system_step in H; [|exact Hs | exact Htr].
      injection H as <-. cbn [System.world System.page]. rewrite Htr, count_app. simpl.
      rewrite Nat.add_0_r. repeat split; assumption.
    + destruct (step_close_exhausted w w1 i Hs Hge) as (_ & _ & Htr & _).
      erewrite system_step in H; [|exact Hs | exact Htr].
      injection H as <-. cbn [System.world System.page]. rewrite Htr, count_app. simpl.
      split; [exact Hno1|]. split; [reflexivity|]. split; [exact Ho|].
      replace (0 <? count is_max_reached (trace w) + 1) with true
        by (symmetry; apply Nat.ltb_lt; lia).
      reflexivity.
  - destruct (timers w !! k) as [d|] eqn:E;
      [|unfold System.step, LandmarkWebSocket.step in H; simpl in H;
        rewrite E in H; discriminate H].
    assert (Hs : LandmarkWebSocket.step w (timer_fire k) =
                 Some (exec connect (drop_timer k w)))
      by (unfold LandmarkWebSocket.step; rewrite E; reflexivity).
    destruct (WebSocket_accepts (url (client w))) eqn:Ha.
    + erewrite system_step in H;
        [|exact Hs | rewrite exec_connect; simpl; rewrite Ha; reflexivity].
      injection H as <-. cbn [System.world System.page]. rewrite exec_connect. simpl. rewrite Ha. simpl.
      rewrite count_app. simpl. rewrite Nat.add_0_r.
      repeat split; try assumption.
      intros j. apply no_open_after_new. exact Hno.
    + erewrite system_step in H;
        [|exact Hs | rewrite exec_connect; simpl; rewrite Ha; reflexivity].
      injection H as <-. cbn [System.world System.page]. rewrite exec_connect. simpl. rewrite Ha. simpl.
      rewrite count_app. simpl. rewrite Nat.add_0_r.
      repeat split; assumption.
Qed.

Lemma retrying_run (es : list Event) :
  forall s s' : System.State,
    System.retrying s -> forallb unattended es = true ->
    System.run s es = Some s' -> System.retrying s'.
Proof.
  induction es as [|e es IH]; intros s s' Hr Hun H.
  - injection H as <-. exact Hr.
  - simpl in Hun. apply andb_true_iff in Hun as [Hu Hun].
    simpl in H. destruct (System.step s e) as [s1|] eqn:E; [|discriminate].
    exact (IH s1 s' (retrying_step s s1 e Hr Hu E) Hun H).
Qed.

Lemma retrying_mounted (u : string) : System.retrying (System.mounted u).
Proof.
  unfold System.retrying, System.mounted. simpl. rewrite exec_connect. simpl.
  destruct (WebSocket_accepts u); simpl.
  - repeat split. intros [|i] E; discriminate E.
  - repeat split. intros i E. discriminate E.
Qed.

(** X10: [App] mounted and the backend unreachable: as long as no socket
    opens, the page keeps saying disconnected, the overlay stays as mounted,
    and the error banner with the cannot-connect message is up exactly from
    the sixth failed connection on, not before. *)
Theorem banner_after_sixth_failure
    (u : string) (es : list Event) (s : System.State)
    (Hun : forallb unattended es = true)
    (Hrun : System.run (System.mounted u) es = Some s) :
  App.isConnected (Page.app (System.page s)) = false /\
  Page.overlay (System.page s) = Page.overlay Page.initial /\
  App.backendError (Page.app (System.page s)) =
    (if 6 <=? closes es then Some System.cannot_connect else None) /\
  AppView.view (Page.app (System.page s)) =
    [ AppView.video_feed; AppView.ar_overlay;
      AppView.status_panel false
        (App.faceDetected (Page.app (System.page s)))
        (App.fps (Page.app (System.page s)))
        (option_map Data.name (App.selectedJewelry (Page.app (System.page s)))) ]
    ++ (if 6 <=? closes es then [AppView.error_banner System.cannot_connect]
        else []).
Proof.
  destruct (retrying_run es _ s (retrying_mounted u) Hun Hrun)
    as (_ & Hc & Ho & Hb).
  apply system_run_world in Hrun. simpl in Hrun.
  assert (Hstart : count is_max_reached (trace (exec connect (boot u))) = 0 /\
                   client (exec connect (boot u)) =
                     set_ws (ws (client (exec connect (boot u))))
                            (constructor u)).
  { rewrite exec_connect. simpl. destruct (WebSocket_accepts u); split; reflexivity. }
  destruct Hstart as (Hm0 & Hc0).
  destruct (unattended_run es _ (System.world s) 0 Hun Hrun)
    as (_ & _ & _ & _ & Hm & _);
    try (rewrite Hc0; reflexivity); [lia|].
  rewrite Hm0 in Hm. simpl in Hm.
  assert (Hflag : (0 <? count is_max_reached (trace (System.world s))) =
                  (6 <=? closes es)).
  { rewrite Hm. destruct (Nat.leb_spec 6 (closes es));
      [apply Nat.ltb_lt | apply Nat.ltb_ge]; lia. }
  rewrite Hflag in Hb.
  split; [exact Hc|]. split; [exact Ho|]. split; [exact Hb|].
  unfold AppView.view. rewrite Hc, Hb.
  destruct (6 <=? closes es); reflexivity.
Qed.

End WithRuntime.
End SystemProps.

(** ** More about the overlay: the viewport, the history of frames, models *)
Module OverlayMoreProps.
Import Data Scene AROverlay.
Local Open Scope Q_scope.

(** X11: a landmark inside the image (x and y within 0..1) lands inside the
    viewport: its render-space x lies within -aspect..aspect and its y within
    -1..1, for every non-negative aspect; the image centre maps to the
    origin and the left image edge to the right viewport edge. *)
Theorem render_space_bounds (p : LandmarkPoint) (a : Q)
    (Hx : 0 <= x p /\ x p <= 1) (Hy : 0 <= y p /\ y p <= 1) (Ha : 0 <= a) :
  let '(rx, ry, rz) := toRenderSpace p a in
  (- a <= rx /\ rx <= a) /\
  (- 1 <= ry /\ ry <= 1) /\
  (x p == 0 -> rx == a) /\
  (x p == 1 -> rx == - a) /\
  (x p == 1 # 2 -> rx == 0) /\
  (y p == 1 # 2 -> ry == 0).
Proof.
  unfold toRenderSpace. destruct Hx as [Hx0 Hx1], Hy as [Hy0 Hy1].
  repeat split; try nra; intros E; rewrite E; ring.
Qed.

Lemma render_space_bounds_witness :
  let '(rx, ry, rz) := toRenderSpace Examples.ear_03 (16 / 9) in
  - (16 / 9) <= rx /\ rx <= 16 / 9.
Proof.
  assert (Hx : 0 <= x Examples.ear_03 /\ x Examples.ear_03 <= 1)
    by (split; discriminate).
  assert (Hy : 0 <= y Examples.ear_03 /\ y Examples.ear_03 <= 1)
    by (split; discriminate).
  assert (Ha : 0 <= 16 / 9) by discriminate.
  exact (proj1 (render_space_bounds Examples.ear_03 (16 / 9) Hx Hy Ha)).
Defined.

(** X12: the transform mirrors and flips: for an aspect that is not
    negative, a landmark further right in the image is never rendered
    further right, one lower in the image is never rendered higher, and
    depth keeps its order.  Distinct landmarks may still be rendered at the
    same spot: in double arithmetic x = 0 and x = 1e-17 both give the
    render coordinate 1 for aspect 1. *)
Theorem render_space_mirrors (p q : LandmarkPoint) (a : Q) (Ha : 0 <= a) :
  let '(px, py, pz) := toRenderSpace p a in
  let '(qx, qy, qz) := toRenderSpace q a in
  (x p <= x q -> qx <= px) /\
  (y p <= y q -> qy <= py) /\
  (z p <= z q -> pz <= qz) /\
  Doubles.toRenderSpace
    {| Doubles.x := 0; Doubles.y := 0; Doubles.z := 0 |} 1 =
  Doubles.toRenderSpace
    {| Doubles.x := 1e-17; Doubles.y := 0; Doubles.z := 0 |} 1.
Proof.
  unfold toRenderSpace.
  split; [intros; nra|]. split; [intros; nra|]. split; [intros; nra|].
  vm_compute. reflexivity.
Qed.

Lemma render_space_mirrors_witness :
  let '(px, py, pz) := toRenderSpace Examples.ear_03 1 in
  let '(qx, qy, qz) := toRenderSpace Examples.ear_07 1 in
  qx <= px.
Proof.
  assert (Ha : 0 <= 1) by discriminate.
  apply (render_space_mirrors Examples.ear_03 Examples.ear_07 1 Ha).
  discriminate.
Defined.

(** X13: a render requests a model file exactly when the overlay is visible,
    the selected style has a non-empty model path and no load failure was
    recorded; the two earrings are always drawn together and in the same
    representation; and a requested model is the file of the selected
    style, placed at the ear with the earring's rotation, scaled by the
    style's scale or by 1.5 when that is zero, behind a loading placeholder
    (a grey wireframe sphere of radius 0.01) at the very same position. *)
Theorem model_requested_iff (j : option Jewelry) (s : State) :
  let wanted :=
    match j with
    | Some d => match modelPath d with
                | Some path => negb (String.eqb path "")
                | None => false
                end
    | None => false
    end in
  existsb loads_asset (render j s) =
    isVisible s && wanted && negb (modelError s) /\
  forallb loads_asset (render j s) =
    negb (isVisible s) || wanted && negb (modelError s) /\
  length (render j s) = (if isVisible s then 2%nat else 0%nat) /\
  (forall e, In e (render j s) -> loads_asset e = true ->
   exists d path pos rot,
     j = Some d /\ modelPath d = Some path /\
     ((pos, rot) =
        (leftEarPos s,
         let '(r0, r1, r2) := faceRotation s in (r0 * 0.5, r1 * 0.5, r2)) \/
      (pos, rot) =
        (rightEarPos s,
         let '(r0, r1, r2) := faceRotation s in
         (r0 * 0.5, JS.Math_PI + r1 * 0.5, - r2))) /\
     e = Suspense
           (mesh {| mesh_position := pos;
                    geometry := sphereGeometry 0.01 8 8;
                    material := meshBasicMaterial "#888888" true |})
           (primitive path pos rot
              (if Qeq_bool (scale d) 0 then 1.5 else scale d))).
Proof.
  intros wanted. unfold wanted, render, useFallback_of, Earring, modelPath_of,
    jewelryScale, LoadingEarring, ModelEarring, left_rotation, right_rotation,
    JS.or_default, JS.truthy_opt, JS.truthy_str, JS.truthy_num.
  destruct j as [d|]; simpl.
  - destruct (isVisible s), (modelError s), (modelPath d) as [path|] eqn:Ep;
      simpl; try destruct (String.eqb path ""); simpl;
      repeat split; try reflexivity;
      intros e H; repeat (destruct H as [<- | H]); try contradiction;
      simpl; intros E; try discriminate E;
      exists d, path; eexists; eexists;
      (split; [reflexivity|]); (split; [exact Ep|]);
      [ split; [left; reflexivity|] | split; [right; reflexivity|] ];
      destruct (Qeq_bool (scale d) 0); reflexivity.
  - destruct (isVisible s), (modelError s); simpl;
      repeat split; try reflexivity;
      intros e H; repeat (destruct H as [<- | H]); try contradiction;
      simpl; intros E; discriminate E.
Qed.

End OverlayMoreProps.

(** ** More about the page: the history of frames, what is on display *)
Module PageMoreProps.
Import Data.
Import Page.
Import PageProps.

Lemma receive_all_snoc (p : State) (frames : list LandmarkFrame) (f : LandmarkFrame) :
  receive_all p (frames ++ [f]) = receive (receive_all p frames) f.
Proof. unfold receive_all. rewrite fold_left_app. reflexivity. Qed.

Lemma videoSize_receive (p : State) (f : LandmarkFrame) :
  AROverlay.props_videoSize (overlay (receive p f)) =
  AROverlay.props_videoSize (overlay p).
Proof.
  destruct (App.has_error f) eqn:E.
  - rewrite (receive_error p f E). reflexivity.
  - destruct (receive_clean p f E) as (_ & _ & H & _). exact H.
Qed.

Lemma videoSize_receive_all (frames : list LandmarkFrame) (p : State) :
  AROverlay.props_videoSize (overlay (receive_all p frames)) =
  AROverlay.props_videoSize (overlay p).
Proof.
  revert p. induction frames as [|f frames IH]; intros p; [reflexivity|].
  simpl. rewrite IH. apply videoSize_receive.
Qed.

(** The overlay state after one frame, whatever the frame. *)
Lemma overlay_state_receive (p : State) (f : LandmarkFrame) :
  overlay_state (receive p f) =
    if App.has_error f then overlay_state p
    else
      match landmarks f with
      | Some lm =>
        AROverlay.landmark_effect (Some lm)
          (AROverlay.props_videoSize (overlay p)) (overlay_state p)
      | None =>
        if AROverlay.same_ref (AROverlay.props_landmarks (overlay p)) None
        then overlay_state p
        else AROverlay.setIsVisible false (overlay_state p)
      end.
Proof.
  destruct (App.has_error f) eqn:E.
  - rewrite (receive_error p f E). reflexivity.
  - destruct (receive_clean p f E) as (_ & _ & _ & H). rewrite H.
    destruct (landmarks f) as [lm|]; [|reflexivity].
    destruct (AROverlay.props_landmarks (overlay p)); reflexivity.
Qed.

(** X15: after any list of frames delivered to a page that was in sync, the
    overlay is visible exactly if the newest error-free frame had both ears;
    if every frame carried an error, visibility is what it was. *)
Theorem visibility_follows_newest_clean_frame
    (p : State) (frames : list LandmarkFrame) (Hs : in_sync p) :
  visible (receive_all p frames) =
    match History.latest_clean (rev frames) with
    | Some f => both_ears f
    | None => visible p
    end.
Proof.
  induction frames as [|f frames IH] using rev_ind; [reflexivity|].
  rewrite receive_all_snoc, rev_app_distr.
  change (rev [f] ++ rev frames) with (f :: rev frames).
  cbn [History.latest_clean].
  assert (Hs' : in_sync (receive_all p frames)).
  { clear IH. revert p Hs. induction frames as [|g frames IH]; intros p Hs;
      [exact Hs|].
    simpl. apply IH. apply (in_sync_deliver p (LandmarkWebSocket.landmarks g) Hs). }
  destruct (App.has_error f) eqn:E.
  - rewrite (receive_error _ f E). exact IH.
  - apply visible_receive_clean; assumption.
Qed.

Lemma visibility_follows_newest_clean_frame_witness :
  visible (receive_all initial
             [Examples.scenario_frame; Examples.failing_frame]) = true.
Proof.
  exact (visibility_follows_newest_clean_frame initial
           [Examples.scenario_frame; Examples.failing_frame] in_sync_initial).
Defined.

(** The error stored by [App] is never an empty string. *)
Lemma stored_error_deliver (p : State) (e : LandmarkWebSocket.Emitted) :
  (forall m, App.backendError (app p) = Some m -> m <> "") ->
  forall m, App.backendError (app (deliver p e)) = Some m -> m <> "".
Proof.
  intros H m. destruct e as [status|f| |flag]; simpl.
  - destruct status; simpl; [discriminate | apply H].
  - unfold App.on_landmarks.
    destruct (App.has_error f) eqn:E; simpl; [|discriminate].
    unfold App.has_error, JS.truthy_opt, JS.truthy_str in E.
    intros Em. rewrite Em in E. intros ->. discriminate E.
  - apply H.
  - intros [= <-]. discriminate.
Qed.

(** X16: whatever the page has received, the error [App] stores is null or a
    non-empty string, so the error banner is on display exactly when an
    error is stored; and the prompt to position the face is shown exactly
    when connected, with no face and no stored error, never together with
    the banner, the snapshot button or the instructions. *)
Theorem banner_and_prompt (inputs : list Input) :
  let a := app (react_all initial inputs) in
  (existsb AppView.is_banner (AppView.view a) = true <->
   App.backendError a <> None) /\
  (In AppView.no_face_prompt (AppView.view a) <->
   App.isConnected a = true /\ App.faceDetected a = false /\
   App.backendError a = None) /\
  (In AppView.no_face_prompt (AppView.view a) ->
   ~ In AppView.snapshot_button (AppView.view a) /\
   ~ In AppView.instructions (AppView.view a) /\
   existsb AppView.is_banner (AppView.view a) = false) /\
  (In AppView.snapshot_button (AppView.view a) <->
   App.isConnected a = true /\ App.faceDetected a = true).
Proof.
  intros a.
  assert (Hne : forall m, App.backendError a = Some m -> m <> "").
  { unfold a. clear a.
    assert (G : forall p : State,
               (forall m, App.backendError (app p) = Some m -> m <> "") ->
               forall m, App.backendError (app (react_all p inputs)) = Some m ->
                         m <> "").
    { induction inputs as [|i inputs IH]; intros p Hp; [exact Hp|].
      simpl. apply IH. destruct i as [e|size].
      - apply stored_error_deliver. exact Hp.
      - exact Hp. }
    apply G. intros m E. discriminate E. }
  unfold AppView.view.
  destruct (App.backendError a) as [m|] eqn:Eb.
  - assert (Ht : JS.truthy_str m = true).
    { unfold JS.truthy_str. destruct (String.eqb_spec m ""); [|reflexivity].
      exfalso. exact (Hne m eq_refl e). }
    simpl. rewrite Ht.
    destruct (App.isConnected a), (App.faceDetected a); simpl;
      intuition (try discriminate; try congruence).
  - destruct (App.isConnected a), (App.faceDetected a); simpl;
      intuition (try discriminate; try congruence).
Qed.

End PageMoreProps.

(** ** The style selector and the snapshot file *)
Module WidgetProps.
Import Data.
Import Stdlib.Strings.Ascii.

(** X17: clicking a style button selects exactly that style: afterwards its
    button, and no other, is highlighted and the status panel names it; and
    whatever is selected, at most one button is highlighted, none when
    nothing is selected. *)
Theorem click_highlights_that_style (item : Jewelry) (s : App.State)
    (Hin : In item JewelrySelector.jewelry) :
  let s' := App.handleJewelrySelect item s in
  JewelrySelector.highlighted (App.selectedJewelry s') = [item] /\
  option_map name (App.selectedJewelry s') = Some (name item) /\
  (forall sel : option Jewelry,
     length (JewelrySelector.highlighted sel) <= 1) /\
  JewelrySelector.highlighted None = [].
Proof.
  split; [|split; [reflexivity|split; [|reflexivity]]].
  - simpl in Hin. destruct Hin as [<-|[<-|[<-|[<-|[]]]]]; reflexivity.
  - intros [c|]; [|simpl; lia].
    unfold JewelrySelector.highlighted, JewelrySelector.jewelry,
      JewelrySelector.is_current. simpl.
    destruct (Z.eqb_spec (id c) 1), (Z.eqb_spec (id c) 2),
      (Z.eqb_spec (id c) 3), (Z.eqb_spec (id c) 4); simpl; lia.
Qed.

Lemma click_highlights_that_style_witness :
  JewelrySelector.highlighted
    (App.selectedJewelry (App.handleJewelrySelect Examples.gold_hoops App.initial))
  = [Examples.gold_hoops].
Proof.
  assert (Hin : In Examples.gold_hoops JewelrySelector.jewelry)
    by (left; reflexivity).
  exact (proj1 (click_highlights_that_style Examples.gold_hoops App.initial Hin)).
Defined.

Lemma occurs_app (c : Ascii.ascii) (s t : string) :
  SnapshotButton.occurs c (s ++ t)%string =
  SnapshotButton.occurs c s + SnapshotButton.occurs c t.
Proof. induction s as [|d s IH]; simpl; [reflexivity|]. rewrite IH. lia. Qed.

Lemma occurs_replace (c : Ascii.ascii) (s : string) :
  (Ascii.eqb c ":" || Ascii.eqb c ".")%char = true ->
  SnapshotButton.occurs c (SnapshotButton.replace s) = 0.
Proof.
  intros Hc. induction s as [|d s IH]; simpl; [reflexivity|].
  rewrite IH. unfold SnapshotButton.replace_char.
  destruct (Ascii.eqb d ":" || Ascii.eqb d ".")%char eqn:Ed.
  - destruct (Ascii.eqb_spec "-"%char c) as [<-|]; [discriminate Hc | reflexivity].
  - destruct (Ascii.eqb_spec d c) as [->|]; [congruence | reflexivity].
Qed.

Lemma length_append (s t : string) :
  String.length (s ++ t)%string = String.length s + String.length t.
Proof. induction s as [|c s IH]; simpl; [reflexivity|]. rewrite IH. reflexivity. Qed.

(** X18: for every timestamp the name of the downloaded file contains no
    colon and exactly one dot, the one of its [.png] extension; the
    replacement changes no other character count: the name is as long as
    the timestamp plus the 18 fixed characters. *)
Theorem download_name_is_safe (iso : string) :
  SnapshotButton.occurs ":"%char (SnapshotButton.download_name iso) = 0 /\
  SnapshotButton.occurs "."%char (SnapshotButton.download_name iso) = 1 /\
  String.length (SnapshotButton.download_name iso) = String.length iso + 18 /\
  SnapshotButton.replace (SnapshotButton.replace iso) = SnapshotButton.replace iso.
Proof.
  unfold SnapshotButton.download_name.
  rewrite !occurs_app, !occurs_replace by reflexivity.
  split; [reflexivity|]. split; [reflexivity|]. split.
  - rewrite !length_append. simpl.
    assert (H : String.length (SnapshotButton.replace iso) = String.length iso)
      by (induction iso as [|c s IH]; simpl; [reflexivity | rewrite IH; reflexivity]).
    rewrite H. lia.
  - induction iso as [|c s IH]; simpl; [reflexivity|]. rewrite IH. f_equal.
    unfold SnapshotButton.replace_char.
    destruct (Ascii.eqb c ":" || Ascii.eqb c ".")%char eqn:E; [reflexivity|].
    rewrite E. reflexivity.
Qed.

Example download_name_of_a_date :
  SnapshotButton.download_name "2026-11-03T10:20:30.123Z" =
  "jewelry-tryOn-2026-11-03T10-20-30-123Z.png".
Proof. reflexivity. Qed.

End WidgetProps.

(** ** Further compositions *)
Module CompositionProps.
Import LandmarkWebSocket.
Import ClientProps.

Section WithRuntime.
Context {rt : Runtime}.

Lemma in_flight_run (es : list Event) :
  forall w w' : World,
    run w es = Some w' ->
    in_flight w' <= in_flight w + length (List.filter Bookkeeping.is_connect es).
Proof.
  induction es as [|e es IH]; intros w w' Hrun.
  - injection Hrun as <-. simpl. lia.
  - simpl in Hrun. destruct (step w e) as [w1|] eqn:E; [|discriminate].
    specialize (IH w1 w' Hrun).
    destruct (not_connect e) eqn:Hn.
    + pose proof (step_in_flight w w1 e Hn E).
      replace (List.filter Bookkeeping.is_connect (e :: es))
        with (List.filter Bookkeeping.is_connect es)
        by (destruct e; try reflexivity; discriminate Hn).
      lia.
    + destruct e; try discriminate Hn. simpl.
      unfold step in E. injection E as <-.
      assert (in_flight (exec connect w) <= S (in_flight w)).
      { rewrite exec_connect. unfold in_flight, live_sockets.
        destruct (WebSocket_accepts (url (client w))); simpl;
          [rewrite live_new|]; lia. }
      lia.
Qed.

(** X19: the client never multiplies connections on its own: at any time
    the number of attempts in flight (sockets not yet closed plus pending
    reconnect timers) is at most the number of [connect()] calls the
    application has made; reconnects only replace a closed socket. *)
Theorem in_flight_bounded_by_connects (u : string) (es : list Event) (w : World)
    (Hrun : run (boot u) es = Some w) :
  in_flight w <= length (List.filter Bookkeeping.is_connect es) /\
  (length (List.filter Bookkeeping.is_connect es) <= 1 ->
   live_sockets w <= 1 /\ length (timers w) <= 1 /\
   (live_sockets w = 1 -> timers w = [])).
Proof.
  pose proof (in_flight_run es (boot u) w Hrun) as H.
  change (in_flight (boot u)) with 0 in H. simpl in H.
  split; [exact H|]. intros H1. unfold in_flight in H.
  repeat split; try lia.
  intros Hl. destruct (timers w); [reflexivity | simpl in H; lia].
Qed.

(** X20: when a socket opens, [App] shows the connection and takes down any
    error banner, the cannot-connect one included, while the overlay keeps
    its pose; the client is then connected with its retry budget reset. *)
Theorem open_clears_banner (s : System.State) (i : nat)
    (Hi : sockets (System.world s) !! i = Some CONNECTING) :
  exists s',
    System.step s (sock_open i) = Some s' /\
    App.isConnected (Page.app (System.page s')) = true /\
    App.backendError (Page.app (System.page s')) = None /\
    existsb AppView.is_banner (AppView.view (Page.app (System.page s'))) = false /\
    Page.overlay (System.page s') = Page.overlay (System.page s) /\
    App.landmarks (Page.app (System.page s')) =
      App.landmarks (Page.app (System.page s)) /\
    reconnectAttempts (client (System.world s')) = 0%Z /\
    (ws (client (System.world s)) = Some i ->
     isConnected (System.world s') = true).
Proof.
  destruct s as [w p]. simpl in *.
  assert (Hs : LandmarkWebSocket.step w (sock_open i) =
               Some (exec onopen (set_socket i OPEN w)))
    by (unfold LandmarkWebSocket.step; rewrite Hi; reflexivity).
  assert (Hlt : i < length (sockets w)) by (eapply lookup_lt_Some; eauto).
  eexists. split.
  - eapply SystemProps.system_step; [exact Hs|].
    rewrite exec_onopen. reflexivity.
  - cbn [System.world System.page]. rewrite exec_onopen. simpl.
    split; [reflexivity|]. split; [reflexivity|].
    split.
    { unfold AppView.view. simpl.
      destruct (App.faceDetected (Page.app p)); reflexivity. }
    split; [reflexivity|]. split; [reflexivity|]. split; [reflexivity|].
    intros Hws. unfold isConnected. simpl. rewrite Hws.
    rewrite list_lookup_insert_eq by exact Hlt. reflexivity.
Qed.

End WithRuntime.

(** X21: the effect depends on the video size too: when the size is
    reported after landmarks with both ears were stored, both ear positions
    are recomputed at once from those landmarks with the aspect
    width/height, without waiting for the next frame, and the overlay is
    visible. *)
Theorem video_size_repositions_ears
    (p : Page.State) (size : Data.VideoSize) (lm : Data.Landmarks)
    (l r : Data.LandmarkPoint)
    (Hlm : AROverlay.props_landmarks (Page.overlay p) = Some lm)
    (Hl : Data.left_ear lm = Some l) (Hr : Data.right_ear lm = Some r) :
  let p' := Page.videoReady p size in
  let a := (Data.width size / Data.height size)%Q in
  AROverlay.leftEarPos (Page.overlay_state p') = AROverlay.toRenderSpace l a /\
  AROverlay.rightEarPos (Page.overlay_state p') = AROverlay.toRenderSpace r a /\
  Page.visible p' = true /\
  AROverlay.faceRotation (Page.overlay_state p') =
    match Data.face_rotation lm with
    | Some rot => (Data.pitch rot, Data.yaw rot, Data.roll rot)
    | None => AROverlay.faceRotation (Page.overlay_state p)
    end /\
  App.videoSize (Page.app p') = Some size.
Proof.
  intros p' a.
  assert (E : Page.overlay_state p' =
              AROverlay.landmark_effect (Some lm) (Some size)
                (Page.overlay_state p)).
  { unfold p', Page.videoReady. simpl. rewrite Hlm.
    destruct (AROverlay.props_videoSize (Page.overlay p)); reflexivity. }
  destruct (OverlayProps.landmark_effect_both lm l r (Some size)
              (Page.overlay_state p) Hl Hr) as (Hv & HL & HR & HF & _).
  unfold Page.visible. rewrite E.
  repeat split; assumption.
Qed.

End CompositionProps.

(** ** The properties above at concrete inputs *)
Module MoreWitnesses.
Import LandmarkWebSocket.

Lemma reconnects_use_ladder_delays_witness :
  exists w,
    run (rt := Examples.sample_runtime) (boot Examples.endpoint)
        (call_connect :: Examples.six_failures) = Some w /\
    Forall (fun d => In d [1000; 2000; 4000; 8000; 16000]%Z)
           (reconnect_delays (trace w)) /\
    (reconnectDelay (client w) <= 30000)%Z.
Proof.
  destruct (run (rt := Examples.sample_runtime) (boot Examples.endpoint)
                (call_connect :: Examples.six_failures)) as [w|] eqn:E;
    [|vm_compute in E; discriminate E].
  exists w. split; [reflexivity|].
  destruct (ClientMoreProps.reconnects_use_ladder_delays
              (rt := Examples.sample_runtime) Examples.endpoint _ w E)
    as (_ & (_ & Hd) & _ & _ & _ & Hr).
  split; [exact Hr | exact Hd].
Defined.

Lemma disconnect_twice_witness :
  step (rt := Examples.sample_runtime)
       (exec disconnect Examples.connected_world) call_disconnect =
  Some (exec disconnect Examples.connected_world).
Proof.
  exact (proj1 (ClientMoreProps.disconnect_twice
                  (rt := Examples.sample_runtime)
                  Examples.connected_world _ eq_refl)).
Defined.

Lemma pending_reconnect_survives_disconnect_witness :
  exists w1 w2 w3,
    step (rt := Examples.sample_runtime)
         (exec onclose (set_socket 0 CLOSED Examples.started))
         call_disconnect = Some w1 /\
    step (rt := Examples.sample_runtime) w1 (timer_fire 0) = Some w2 /\
    step (rt := Examples.sample_runtime) w2 (sock_open (length (sockets w1)))
      = Some w3 /\
    isConnected w3 = true.
Proof.
  destruct (ClientMoreProps.pending_reconnect_survives_disconnect
              (rt := Examples.sample_runtime)
              (exec onclose (set_socket 0 CLOSED Examples.started))
              0 1000%Z eq_refl eq_refl)
    as (w1 & w2 & w3 & H1 & _ & H2 & _ & H3 & _ & Hc & _).
  exists w1, w2, w3. repeat split; assumption.
Defined.

Lemma connect_keeps_previous_socket_witness :
  exists w1 w2,
    step (rt := Examples.sample_runtime) Examples.connected_world call_connect
      = Some w1 /\
    isConnected w1 = false /\
    step (rt := Examples.sample_runtime) w1 (sock_message 0 "{}") = Some w2.
Proof.
  destruct (ClientMoreProps.connect_keeps_previous_socket
              (rt := Examples.sample_runtime)
              Examples.connected_world 0 "{}" _ eq_refl eq_refl eq_refl eq_refl)
    as (w1 & w2 & H1 & _ & Hc & _ & _ & _ & H2 & _).
  exists w1, w2. repeat split; assumption.
Defined.

Lemma rejected_url_only_errors_witness :
  exists w,
    run (rt := Examples.sample_runtime) (boot "http://localhost:8000")
        [call_connect; call_disconnect; call_connect] = Some w /\
    System.emitted (trace w) = [error; error] /\
    sockets w = [].
Proof.
  destruct (run (rt := Examples.sample_runtime) (boot "http://localhost:8000")
                [call_connect; call_disconnect; call_connect]) as [w|] eqn:E;
    [|vm_compute in E; discriminate E].
  exists w. split; [reflexivity|].
  destruct (ClientMoreProps.rejected_url_only_errors
              (rt := Examples.sample_runtime) "http://localhost:8000" _ w
              eq_refl E) as (He & _ & Hs & _).
  split; [exact He | exact Hs].
Defined.

Lemma backoff_restarts_after_open_witness :
  exists w',
    run (rt := Examples.sample_runtime) Examples.started
        [sock_open 0; sock_close 0; timer_fire 0; sock_close 1] = Some w' /\
    reconnect_delays (trace w') = [1000; 2000]%Z.
Proof.
  destruct (run (rt := Examples.sample_runtime) Examples.started
                [sock_open 0; sock_close 0; timer_fire 0; sock_close 1])
    as [w'|] eqn:E; [|vm_compute in E; discriminate E].
  exists w'. split; [reflexivity|].
  exact (proj1 (ClientMoreProps.backoff_restarts_after_open
                  (rt := Examples.sample_runtime) Examples.started w' 0
                  [sock_close 0; timer_fire 0; sock_close 1]
                  eq_refl eq_refl eq_refl E)).
Defined.

Lemma banner_after_sixth_failure_witness :
  exists s,
    System.run (rt := Examples.sample_runtime)
      (System.mounted (rt := Examples.sample_runtime) Examples.endpoint)
      Examples.six_failures = Some s /\
    App.backendError (Page.app (System.page s)) = Some System.cannot_connect.
Proof.
  destruct (System.run (rt := Examples.sample_runtime)
              (System.mounted (rt := Examples.sample_runtime) Examples.endpoint)
              Examples.six_failures) as [s|] eqn:E;
    [|vm_compute in E; discriminate E].
  exists s. split; [reflexivity|].
  destruct (SystemProps.banner_after_sixth_failure
              (rt := Examples.sample_runtime) Examples.endpoint
              Examples.six_failures s eq_refl E) as (_ & _ & Hb & _).
  exact Hb.
Defined.

Lemma in_flight_bounded_by_connects_witness :
  exists w,
    run (rt := Examples.sample_runtime) (boot Examples.endpoint)
        (call_connect :: Examples.five_failures) = Some w /\
    in_flight w <= 1.
Proof.
  destruct (run (rt := Examples.sample_runtime) (boot Examples.endpoint)
                (call_connect :: Examples.five_failures)) as [w|] eqn:E;
    [|vm_compute in E; discriminate E].
  exists w. split; [reflexivity|].
  exact (proj1 (CompositionProps.in_flight_bounded_by_connects
                  (rt := Examples.sample_runtime) Examples.endpoint _ w E)).
Defined.

Lemma open_clears_banner_witness :
  exists s',
    System.step (rt := Examples.sample_runtime)
      {| System.world := Examples.started;
         System.page :=
           Page.deliver Page.initial (maxReconnectAttemptsReached true) |}
      (sock_open 0) = Some s' /\
    App.backendError (Page.app (System.page s')) = None /\
    App.isConnected (Page.app (System.page s')) = true.
Proof.
  destruct (CompositionProps.open_clears_banner (rt := Examples.sample_runtime)
              {| System.world := Examples.started;
                 System.page :=
                   Page.deliver Page.initial (maxReconnectAttemptsReached true) |}
              0 eq_refl)
    as (s' & Hs & Hc & Hb & _).
  exists s'. repeat split; assumption.
Defined.

Lemma video_size_repositions_ears_witness :
  AROverlay.leftEarPos
    (Page.overlay_state
       (Page.videoReady (Page.receive Page.initial Examples.scenario_frame)
                        Examples.square_video)) =
  AROverlay.toRenderSpace Examples.ear_03 (480 / 480)%Q.
Proof.
  exact (proj1 (CompositionProps.video_size_repositions_ears
                  (Page.receive Page.initial Examples.scenario_frame)
                  Examples.square_video Examples.ears_only
                  Examples.ear_03 Examples.ear_07 eq_refl eq_refl eq_refl)).
Defined.

End MoreWitnesses.
